(** * block-patterns: the [Vector3] value class and the [BlockMatcher]

    A shallow embedding of [src/data/scripts/utils.ts].

    - JavaScript numbers of the [Vector3] arithmetic are IEEE 754 binary64
      values, embedded with the Standard Library's [SpecFloat].
    - Block coordinates and pattern offsets are integers far inside the range
      where binary64 addition and negation are exact; the matcher's numbers
      are embedded in [Z] (so JavaScript's [-0] and [0] are one value, as
      they are for [===] and for [JSON.stringify]).
    - A pattern entry is an object with the two properties [offset] and
      [blockType], in the order its creator wrote them: [JSON.stringify]
      lists properties in creation order, so that order is part of the
      entry.  The generator's own object literals, and the event handler's
      pattern, write [offset] first.
    - The Minecraft host (the dimension's block grid, its command runner and
      the [doTileDrops] game rule) is an explicit world state with a log of
      the calls made to it, threaded through a small state-and-exception
      monad. *)

From Stdlib Require Import ZArith Lia Bool Ascii Decimal DecimalString DecimalZ DecimalPos SpecFloat.
From stdpp Require Import base option list strings gmap.

Local Open Scope Z_scope.

(** ** JavaScript values shared by both classes *)

(** A thrown JavaScript exception, by constructor and message. *)
Inductive JSError : Type :=
| Error (message : string)
| SyntaxError (message : string).

(** The completion of a call: a returned value or a thrown exception. *)
Inductive Completion (A : Type) : Type :=
| Return (a : A)
| Throw (e : JSError).
Arguments Return {A} a.
Arguments Throw {A} e.

(** [class Vector3 { x: number; y: number; z: number }], over the embedding
    [N] of its numbers. *)
Record Vector3 (N : Type) : Type := mkVector3 { x : N; y : N; z : N }.
Arguments mkVector3 {N} x y z.
Arguments x {N} v.
Arguments y {N} v.
Arguments z {N} v.

#[global] Instance Vector3_eq_dec {N : Type} `{EqDecision N} : EqDecision (Vector3 N).
Proof. solve_decision. Defined.

(** The order in which an entry's two properties were created. *)
Inductive PropertyOrder : Type := OffsetFirst | BlockTypeFirst.

#[global] Instance PropertyOrder_eq_dec : EqDecision PropertyOrder.
Proof. solve_decision. Defined.

(** One entry of a pattern, an object of type
    [{ offset: [number, number, number], blockType: string }]. *)
Record PatternBlock : Type :=
  mkEntry { properties : PropertyOrder; offset : Z * Z * Z; blockType : string }.

(** The object literal [{ offset: o, blockType: t }]. *)
Definition mkBlock (o : Z * Z * Z) (t : string) : PatternBlock :=
  mkEntry OffsetFirst o t.

#[global] Instance PatternBlock_eq_dec : EqDecision PatternBlock.
Proof. solve_decision. Defined.

(** ** JSON text of a pattern

    [generateCombinations] removes duplicate variants by sending each one
    through [JSON.stringify], collecting the texts in a [Set], and reading
    the survivors back with [JSON.parse]. *)
Module JSON.

Definition dquote : ascii := "034"%char.
Definition backslash : ascii := "092"%char.

(** [Number::toString] of an integer: decimal digits, a leading minus sign
    for negatives.  That is the text of every integer below [10 ^ 21] in
    magnitude, which covers the exactly represented integers the matcher's
    numbers stand for. *)
Definition Number_toString (n : Z) : string :=
  NilZero.string_of_int (Z.to_int n).

Definition hex_digit (b3 b2 b1 b0 : bool) : string :=
  let nib (c : ascii) := String c EmptyString in
  match b3, b2, b1, b0 with
  | false, false, false, false => nib "0" | false, false, false, true => nib "1"
  | false, false, true, false => nib "2" | false, false, true, true => nib "3"
  | false, true, false, false => nib "4" | false, true, false, true => nib "5"
  | false, true, true, false => nib "6" | false, true, true, true => nib "7"
  | true, false, false, false => nib "8" | true, false, false, true => nib "9"
  | true, false, true, false => nib "a" | true, false, true, true => nib "b"
  | true, true, false, false => nib "c" | true, true, false, true => nib "d"
  | true, true, true, false => nib "e" | true, true, true, true => nib "f"
  end%char.

(** [QuoteJSONString], one code unit: the two-character escapes, [\u00XX]
    for the other control characters, the character itself otherwise. *)
Definition quote_char (c : ascii) : string :=
  let esc (e : ascii) := String backslash (String e EmptyString) in
  match c with
  | "008"%char => esc "b"%char
  | "009"%char => esc "t"%char
  | "010"%char => esc "n"%char
  | "012"%char => esc "f"%char
  | "013"%char => esc "r"%char
  | "034"%char => esc dquote
  | "092"%char => esc backslash
  | Ascii b0 b1 b2 b3 b4 false false false =>
      String backslash (String "u" (String "0" (String "0"
        (hex_digit false false false b4 +:+ hex_digit b3 b2 b1 b0))))
  | _ => String c EmptyString
  end.

Fixpoint quote_body (s : string) : string :=
  match s with
  | EmptyString => EmptyString
  | String c s' => quote_char c +:+ quote_body s'
  end.

Definition QuoteJSONString (s : string) : string :=
  String dquote (quote_body s +:+ String dquote EmptyString).

Definition stringify_offset (o : Z * Z * Z) : string :=
  let '(ox, oy, oz) := o in
  "[" +:+ Number_toString ox +:+ "," +:+ Number_toString oy +:+ ","
      +:+ Number_toString oz +:+ "]".

Definition key (name : string) : string := QuoteJSONString name +:+ ":".

(** The properties are written in their creation order. *)
Definition stringify_block (b : PatternBlock) : string :=
  match properties b with
  | OffsetFirst =>
      "{" +:+ key "offset" +:+ stringify_offset (offset b) +:+ ","
          +:+ key "blockType" +:+ QuoteJSONString (blockType b) +:+ "}"
  | BlockTypeFirst =>
      "{" +:+ key "blockType" +:+ QuoteJSONString (blockType b) +:+ ","
          +:+ key "offset" +:+ stringify_offset (offset b) +:+ "}"
  end.

Fixpoint stringify_elems (l : list PatternBlock) : string :=
  match l with
  | [] => ""
  | [b] => stringify_block b
  | b :: l' => stringify_block b +:+ "," +:+ stringify_elems l'
  end.

(** [JSON.stringify] of an array of pattern entries. *)
Definition stringify (l : list PatternBlock) : string :=
  "[" +:+ stringify_elems l +:+ "]".

(** *** Reading the text back *)

Definition is_number_char (c : ascii) : bool :=
  match c with
  | "-" | "0" | "1" | "2" | "3" | "4" | "5" | "6" | "7" | "8" | "9" => true
  | _ => false
  end%char.

Fixpoint span_number (s : string) : string * string :=
  match s with
  | EmptyString => (EmptyString, EmptyString)
  | String c s' =>
      if is_number_char c
      then let '(tok, rest) := span_number s' in (String c tok, rest)
      else (EmptyString, s)
  end.

Definition parse_number (s : string) : option (Z * string) :=
  let '(tok, rest) := span_number s in
  match NilZero.int_of_string tok with
  | Some d => Some (Z.of_int d, rest)
  | None => None
  end.

Definition unhex (c : ascii) : option (bool * bool * bool * bool) :=
  match c with
  | "0" => Some (false, false, false, false) | "1" => Some (false, false, false, true)
  | "2" => Some (false, false, true, false) | "3" => Some (false, false, true, true)
  | "4" => Some (false, true, false, false) | "5" => Some (false, true, false, true)
  | "6" => Some (false, true, true, false) | "7" => Some (false, true, true, true)
  | "8" => Some (true, false, false, false) | "9" => Some (true, false, false, true)
  | "a" | "A" => Some (true, false, true, false) | "b" | "B" => Some (true, false, true, true)
  | "c" | "C" => Some (true, true, false, false) | "d" | "D" => Some (true, true, false, true)
  | "e" | "E" => Some (true, true, true, false) | "f" | "F" => Some (true, true, true, true)
  | _ => None
  end%char.

Definition cons_char (c : ascii) (r : option (string * string)) : option (string * string) :=
  match r with
  | Some (s, rest) => Some (String c s, rest)
  | None => None
  end.

(** The characters of a JSON string after its opening quote, up to and
    including the closing one.  Code units above 255 are outside the
    embedding of strings. *)
Fixpoint parse_string_body (s : string) : option (string * string) :=
  match s with
  | EmptyString => None
  | String c s' =>
      if Ascii.eqb c dquote then Some (EmptyString, s')
      else if Ascii.eqb c backslash then
        match s' with
        | String e s'' =>
            match e with
            | "034"%char => cons_char dquote (parse_string_body s'')
            | "092"%char => cons_char backslash (parse_string_body s'')
            | "/"%char => cons_char "/"%char (parse_string_body s'')
            | "b"%char => cons_char "008"%char (parse_string_body s'')
            | "t"%char => cons_char "009"%char (parse_string_body s'')
            | "n"%char => cons_char "010"%char (parse_string_body s'')
            | "f"%char => cons_char "012"%char (parse_string_body s'')
            | "r"%char => cons_char "013"%char (parse_string_body s'')
            | "u"%char =>
                match s'' with
                | String "0"%char (String "0"%char (String h1 (String h0 r))) =>
                    match unhex h1, unhex h0 with
                    | Some (b7, b6, b5, b4), Some (b3, b2, b1, b0) =>
                        cons_char (Ascii b0 b1 b2 b3 b4 b5 b6 b7) (parse_string_body r)
                    | _, _ => None
                    end
                | _ => None
                end
            | _ => None
            end
        | EmptyString => None
        end
      else
        match c with
        | Ascii _ _ _ _ _ false false false => None
        | _ => cons_char c (parse_string_body s')
        end
  end.

Definition parse_string (s : string) : option (string * string) :=
  match s with
  | String c s' => if Ascii.eqb c dquote then parse_string_body s' else None
  | EmptyString => None
  end.

(** [expect p s]: [s] without its prefix [p]. *)
Fixpoint expect (p s : string) : option string :=
  match p with
  | EmptyString => Some s
  | String c p' =>
      match s with
      | String d s' => if Ascii.eqb c d then expect p' s' else None
      | EmptyString => None
      end
  end.

Definition parse_offset (s : string) : option (Z * Z * Z * string) :=
  s ← expect "[" s;
  '(ox, s) ← parse_number s;
  s ← expect "," s;
  '(oy, s) ← parse_number s;
  s ← expect "," s;
  '(oz, s) ← parse_number s;
  s ← expect "]" s;
  Some (ox, oy, oz, s).

(** An object with the two properties, in either order; the object read
    has its properties in the order of the text. *)
Definition parse_block (s : string) : option (PatternBlock * string) :=
  match expect ("{" +:+ key "offset") s with
  | Some s =>
      '(o, s) ← parse_offset s;
      s ← expect ("," +:+ key "blockType") s;
      '(t, s) ← parse_string s;
      s ← expect "}" s;
      Some (mkEntry OffsetFirst o t, s)
  | None =>
      s ← expect ("{" +:+ key "blockType") s;
      '(t, s) ← parse_string s;
      s ← expect ("," +:+ key "offset") s;
      '(o, s) ← parse_offset s;
      s ← expect "}" s;
      Some (mkEntry BlockTypeFirst o t, s)
  end.

Fixpoint parse_elems (fuel : nat) (s : string) : option (list PatternBlock * string) :=
  match fuel with
  | O => None
  | S fuel' =>
      '(b, r) ← parse_block s;
      match r with
      | String "," r' => '(l, r'') ← parse_elems fuel' r'; Some (b :: l, r'')
      | String "]" r' => Some ([b], r')
      | _ => None
      end
  end%char.

(** [JSON.parse], for the one shape of text that reaches it: an array of
    pattern entries as [stringify] writes them.  [None] stands for the
    [SyntaxError] thrown on a text that is not of that shape. *)
Definition parse (s : string) : option (list PatternBlock) :=
  match s with
  | String "[" (String "]" EmptyString) => Some []
  | String "[" r =>
      match parse_elems (String.length s) r with
      | Some (l, EmptyString) => Some l
      | _ => None
      end
  | _ => None
  end%char.

End JSON.

(** ** [Vector3] over binary64 numbers *)
Module Number.

Definition prec : Z := 53.
Definition emax : Z := 1024.

(** A JavaScript number. *)
Definition number : Type := spec_float.

Definition zero : number := S754_zero false.
Definition add : number -> number -> number := SFadd prec emax.
Definition sub : number -> number -> number := SFsub prec emax.
Definition mul : number -> number -> number := SFmul prec emax.
Definition div : number -> number -> number := SFdiv prec emax.
Definition sqrt : number -> number := SFsqrt prec emax.

(** [a === b] and [a !== b] on numbers: IEEE equality, under which the two
    zeros are equal and NaN differs from everything. *)
Definition strict_eq (a b : number) : bool := SFeqb a b.
Definition strict_neq (a b : number) : bool := negb (SFeqb a b).

(** [a ** 2], taken as the correctly rounded product [a * a]. *)
Definition square (a : number) : number := mul a a.

(** The two zeros. *)
Definition is_zero (a : number) : Prop := exists sign, a = S754_zero sign.

(** The values a square, and a sum of squares, can take: not negative, and
    when finite, with an exponent at or above the least one. *)
Definition squarish (a : number) : Prop :=
  match a with
  | S754_zero sign => sign = false
  | S754_infinity sign => sign = false
  | S754_nan => True
  | S754_finite sign _ e => sign = false /\ -1074 <= e
  end.

(** The number literal [1e-200] (the nearest binary64 value,
    [0x1.87e92154ef7acp-665]). *)
Definition tiny : number := S754_finite false 6894565328877484 (-717).

End Number.

Module Vec3.
Import Number.

Section Methods.

(** [Number::toString] on binary64 values, used by the template literal of
    [toString] only; it never throws. *)
Variable Number_toString : number -> string.

Definition equals (this other : Vector3 number) : bool :=
  strict_eq (x this) (x other) && strict_eq (y this) (y other)
    && strict_eq (z this) (z other).

Definition add (this other : Vector3 number) : Vector3 number :=
  mkVector3 (Number.add (x this) (x other)) (Number.add (y this) (y other))
            (Number.add (z this) (z other)).

Definition subtract (this other : Vector3 number) : Vector3 number :=
  mkVector3 (Number.sub (x this) (x other)) (Number.sub (y this) (y other))
            (Number.sub (z this) (z other)).

Definition multiply (this : Vector3 number) (scalar : number) : Vector3 number :=
  mkVector3 (Number.mul (x this) scalar) (Number.mul (y this) scalar)
            (Number.mul (z this) scalar).

Definition divide (this : Vector3 number) (scalar : number) : Completion (Vector3 number) :=
  if strict_neq scalar zero
  then Return (mkVector3 (Number.div (x this) scalar) (Number.div (y this) scalar)
                         (Number.div (z this) scalar))
  else Throw (Error "Cannot divide by zero").

Definition magnitude (this : Vector3 number) : number :=
  Number.sqrt (Number.add (Number.add (square (x this)) (square (y this)))
                          (square (z this))).

Definition normalize (this : Vector3 number) : Completion (Vector3 number) :=
  let mag := magnitude this in
  if strict_neq mag zero
  then divide this mag
  else Throw (Error "Cannot normalize a zero vector").

Definition dot (this other : Vector3 number) : number :=
  Number.add (Number.add (Number.mul (x this) (x other)) (Number.mul (y this) (y other)))
             (Number.mul (z this) (z other)).

Definition cross (this other : Vector3 number) : Vector3 number :=
  mkVector3
    (Number.sub (Number.mul (y this) (z other)) (Number.mul (z this) (y other)))
    (Number.sub (Number.mul (z this) (x other)) (Number.mul (x this) (z other)))
    (Number.sub (Number.mul (x this) (y other)) (Number.mul (y this) (x other))).

Definition distance (this other : Vector3 number) : number :=
  Number.sqrt
    (Number.add
       (Number.add (square (Number.sub (x this) (x other)))
                   (square (Number.sub (y this) (y other))))
       (square (Number.sub (z this) (z other)))).

Definition toString (this : Vector3 number) : string :=
  "Vector3(" +:+ Number_toString (x this) +:+ ", " +:+ Number_toString (y this)
             +:+ ", " +:+ Number_toString (z this) +:+ ")".

(** The methods of the class, with their arguments. *)
Inductive Method : Type :=
| Equals (other : Vector3 number)
| Add (other : Vector3 number)
| Subtract (other : Vector3 number)
| Multiply (scalar : number)
| Divide (scalar : number)
| Magnitude
| Normalize
| Dot (other : Vector3 number)
| Cross (other : Vector3 number)
| Distance (other : Vector3 number)
| ToString.

Inductive Value : Type :=
| VBoolean (b : bool)
| VNumber (n : number)
| VVector (v : Vector3 number)
| VString (s : string).

Definition fmap_completion {A B : Type} (f : A -> B) (c : Completion A) : Completion B :=
  match c with
  | Return a => Return (f a)
  | Throw e => Throw e
  end.

(** [this.m(args)] for each method [m] of the class. *)
Definition call (this : Vector3 number) (m : Method) : Completion Value :=
  match m with
  | Equals other => Return (VBoolean (equals this other))
  | Add other => Return (VVector (add this other))
  | Subtract other => Return (VVector (subtract this other))
  | Multiply scalar => Return (VVector (multiply this scalar))
  | Divide scalar => fmap_completion VVector (divide this scalar)
  | Magnitude => Return (VNumber (magnitude this))
  | Normalize => fmap_completion VVector (normalize this)
  | Dot other => Return (VNumber (dot this other))
  | Cross other => Return (VVector (cross this other))
  | Distance other => Return (VNumber (distance this other))
  | ToString => Return (VString (toString this))
  end.

End Methods.
End Vec3.

(** ** The Minecraft host

    [@minecraft/server] is not part of the repository.  The two capabilities
    [BlockMatcher] consumes are embedded by their contract, with every call
    logged in order. *)
Module Host.

(** [/setblock <position> <tileName> [destroy|keep|replace]]. *)
Inductive OldBlockHandling : Type := destroy | keep | replace.

Record Command : Type :=
  setblock { position : Vector3 Z; tileName : string; oldBlockHandling : OldBlockHandling }.

(** A call on the host, as an instrumented collaborator would record it. *)
Inductive Call : Type :=
| GetBlock (location : Vector3 Z)
| SetDoTileDrops (value : bool)
| RunCommand (command : Command).

(** A [Block] handle; only [typeId] is read. *)
Record Block : Type := mkHostBlock { typeId : string }.

(** The block grid of the dimension ([None]: no block can be read there),
    the [doTileDrops] game rule, the item drops spawned so far, and the log
    of the calls received. *)
Record World : Type := mkWorld {
  blocks : gmap (Z * Z * Z) string;
  doTileDrops : bool;
  drops : list (Z * Z * Z * string);
  calls : list Call
}.

Definition coords (l : Vector3 Z) : Z * Z * Z := (x l, y l, z l).

(** Calls run against the world and return or throw. *)
Definition M (A : Type) : Type := World -> Completion A * World.

#[global] Instance M_ret : MRet M := fun A a w => (Return a, w).
#[global] Instance M_bind : MBind M := fun A B f m w =>
  match m w with
  | (Return a, w') => f a w'
  | (Throw e, w') => (Throw e, w')
  end.

Definition throw {A : Type} (e : JSError) : M A := fun w => (Throw e, w).

Definition log (c : Call) (w : World) : World :=
  mkWorld (blocks w) (doTileDrops w) (drops w) (calls w ++ [c]).

(** Modelled from the spec: block lookup, "given an absolute
    integer-coordinate location, return the block-type identifier present
    there, or an absent/void value if unqueryable"
    ([Dimension.getBlock : Block | undefined]). *)
Definition getBlock (location : Vector3 Z) : M (option Block) := fun w =>
  (Return (mkHostBlock <$> blocks w !! coords location), log (GetBlock location) w).

(** [world.gameRules.doTileDrops = value]. *)
Definition setDoTileDrops (value : bool) : M () := fun w =>
  (Return (), log (SetDoTileDrops value)
                  (mkWorld (blocks w) value (drops w) (calls w))).

Definition air : string := "minecraft:air".

(** Modelled from the spec: block removal, "given an absolute location,
    destructively clear the block there"; the replaced block is dropped as
    an item when the command destroys it while [doTileDrops] is on. *)
Definition runCommand (c : Command) : M () := fun w =>
  let here := coords (position c) in
  let spawned :=
    match oldBlockHandling c, doTileDrops w, blocks w !! here with
    | destroy, true, Some old => if bool_decide (old = air) then [] else [(here, old)]
    | _, _, _ => []
    end in
  (Return (), log (RunCommand c)
                  (mkWorld (<[here := "minecraft:" +:+ tileName c]> (blocks w))
                           (doTileDrops w) (drops w ++ spawned) (calls w))).

End Host.

(** ** [BlockMatcher] *)
Module BlockMatcher.
Import Host.

(** [pattern.triggerBlock]. *)
Module TriggerBlock.
Record t : Type := mk { blockType : string; location : Vector3 Z }.
End TriggerBlock.

Record Pattern : Type := mkPattern {
  triggerBlock : TriggerBlock.t;
  pattern : list PatternBlock
}.

(** [options]. *)
Module Options.
Record t : Type := mk { destroyBlocks : bool }.
End Options.

(** [{ matched: true, combination, center }] or [{ matched: false }]. *)
Inductive MatchResult : Type :=
| Matched (combination : list PatternBlock) (center : Vector3 Z)
| NoMatch.

Definition matched (r : MatchResult) : bool :=
  match r with Matched _ _ => true | NoMatch => false end.

(** [new Vector3(baseLocation.x + offsetX, baseLocation.y + offsetY,
    baseLocation.z + offsetZ)].  The sums are those of integers; they are
    the binary64 sums as long as each stays within [2 ^ 53] in magnitude,
    which block coordinates and pattern offsets do. *)
Definition offsetLocation (baseLocation : Vector3 Z) (block : PatternBlock) : Vector3 Z :=
  let '(offsetX, offsetY, offsetZ) := offset block in
  mkVector3 (x baseLocation + offsetX) (y baseLocation + offsetY) (z baseLocation + offsetZ).

Fixpoint checkCombination (baseLocation : Vector3 Z) (combination : list PatternBlock)
  : M bool :=
  match combination with
  | [] => mret true
  | block :: rest =>
      found ← getBlock (offsetLocation baseLocation block);
      let blockType' : option string := typeId <$> found in
      if bool_decide (blockType' ≠ Some (blockType block))
      then mret false
      else checkCombination baseLocation rest
  end.

Definition destroyBlock (location : Vector3 Z) : M () :=
  setDoTileDrops false;;
  runCommand (setblock location "air" destroy);;
  setDoTileDrops true.

Fixpoint destroyEach (baseLocation : Vector3 Z) (combination : list PatternBlock) : M () :=
  match combination with
  | [] => mret ()
  | block :: rest =>
      destroyBlock (offsetLocation baseLocation block);;
      destroyEach baseLocation rest
  end.

Definition destroyBlocks (baseLocation : Vector3 Z) (combination : list PatternBlock) : M () :=
  destroyBlock baseLocation;;
  destroyEach baseLocation combination.

Definition mapOffset (f : Z * Z * Z -> Z * Z * Z) (p : list PatternBlock) : list PatternBlock :=
  map (fun b => mkBlock (f (offset b)) (blockType b)) p.

(** The ten entries pushed on [rotations], in order. *)
Definition rotations (p : list PatternBlock) : list (list PatternBlock) :=
  [ p;
    mapOffset (fun '(o0, o1, o2) => (o2, o1, - o0)) p;
    mapOffset (fun '(o0, o1, o2) => (- o0, o1, - o2)) p;
    mapOffset (fun '(o0, o1, o2) => (- o2, o1, o0)) p;
    mapOffset (fun '(o0, o1, o2) => (o0, - o2, o1)) p;
    mapOffset (fun '(o0, o1, o2) => (o0, - o1, - o2)) p;
    mapOffset (fun '(o0, o1, o2) => (o0, o2, - o1)) p;
    mapOffset (fun '(o0, o1, o2) => (- o1, o0, o2)) p;
    mapOffset (fun '(o0, o1, o2) => (- o0, - o1, o2)) p;
    mapOffset (fun '(o0, o1, o2) => (o1, - o0, o2)) p ].

(** [rotations.flatMap(rotation => [rotation, ...three mirrored copies])]. *)
Definition reflections (p : list PatternBlock) : list (list PatternBlock) :=
  flat_map (fun rotation =>
    [ rotation;
      mapOffset (fun '(o0, o1, o2) => (- o0, o1, o2)) rotation;
      mapOffset (fun '(o0, o1, o2) => (o0, - o1, - o2)) rotation;
      mapOffset (fun '(o0, o1, o2) => (o0, o1, - o2)) rotation ])
    (rotations p).

(** A JavaScript [Set] of strings: its elements in insertion order. *)
Definition Set_add (s : list string) (k : string) : list string :=
  if bool_decide (k ∈ s) then s else s ++ [k].

Definition Set_new (l : list string) : list string := foldl Set_add [] l.

(** [texts.map(t => JSON.parse(t))]; a text that does not parse throws. *)
Fixpoint mapParse (texts : list string) : Completion (list (list PatternBlock)) :=
  match texts with
  | [] => Return []
  | t :: rest =>
      match JSON.parse t with
      | None => Throw (SyntaxError "JSON.parse")
      | Some c =>
          match mapParse rest with
          | Return cs => Return (c :: cs)
          | Throw e => Throw e
          end
      end
  end.

Definition generateCombinations (p : list PatternBlock)
  : Completion (list (list PatternBlock)) :=
  let uniquePatterns := Set_new (JSON.stringify <$> reflections p) in
  mapParse uniquePatterns.

Definition lift {A : Type} (c : Completion A) : M A := fun w => (c, w).

(** The [for ... of possibleCombinations] loop with its early [return]. *)
Fixpoint matchLoop (location : Vector3 Z) (shouldDestroyBlocks : bool)
    (possibleCombinations : list (list PatternBlock)) : M MatchResult :=
  match possibleCombinations with
  | [] => mret NoMatch
  | combination :: rest =>
      ok ← checkCombination location combination;
      if ok : bool
      then
        (if shouldDestroyBlocks then destroyBlocks location combination else mret ());;
        mret (Matched combination location)
      else matchLoop location shouldDestroyBlocks rest
  end.

Definition matchBlocks (p : Pattern) (options : Options.t) : M MatchResult :=
  let location := TriggerBlock.location (triggerBlock p) in
  possibleCombinations ← lift (generateCombinations (pattern p));
  matchLoop location (Options.destroyBlocks options) possibleCombinations.

End BlockMatcher.

(** ** The vocabulary of the matcher's contract

    The notions the theorems state the matcher's contract with.
    [dedup_first] and the notions of lookups and removals follow the
    specification's words.  The two transform tables and the lists
    [candidates] and [variants] built from them are the generator's own
    lambdas collected in closed form; the specification's wording of the
    candidates is [VariantSpec] below. *)
Module MatcherSpec.
Import Host BlockMatcher.

(** Deduplication by structural equality with order-stable first-occurrence
    survivors: an element stays, its later copies go. *)
Fixpoint dedup_first {A : Type} `{EqDecision A} (l : list A) : list A :=
  match l with
  | [] => []
  | a :: l' => a :: filter (fun b => b <> a) (dedup_first l')
  end.

(** The offsets of the ten entries pushed on [rotations], as functions of
    the offset: the identity, then the lambdas commented as turns around the
    Y, the X and the Z axis. *)
Definition rotationTransforms : list (Z * Z * Z -> Z * Z * Z) :=
  [ (fun o => o);
    (fun '(a, b, c) => (c, b, - a));
    (fun '(a, b, c) => (- a, b, - c));
    (fun '(a, b, c) => (- c, b, a));
    (fun '(a, b, c) => (a, - c, b));
    (fun '(a, b, c) => (a, - b, - c));
    (fun '(a, b, c) => (a, c, - b));
    (fun '(a, b, c) => (- b, a, c));
    (fun '(a, b, c) => (- a, - b, c));
    (fun '(a, b, c) => (b, - a, c)) ].

(** The offsets of the four entries of a [flatMap] group, as functions of
    the rotated offset: the identity and the three lambdas commented as
    reflections across the X, the Y and the Z axis.  The one commented Y
    negates two coordinates; it is the half turn around the X axis. *)
Definition reflectionTransforms : list (Z * Z * Z -> Z * Z * Z) :=
  [ (fun o => o);
    (fun '(a, b, c) => (- a, b, c));
    (fun '(a, b, c) => (a, - b, - c));
    (fun '(a, b, c) => (a, b, - c)) ].

(** Forty candidates in generation order, every one of them written by an
    object literal of the generator: each of the ten rotations, followed by
    its three mirrored copies.  The generator's own first candidate is the
    caller's array as passed, see [searchOrder]; for a pattern written
    offset first the two lists are the same. *)
Definition candidates (p : list PatternBlock) : list (list PatternBlock) :=
  rot ← rotationTransforms;
  refl ← reflectionTransforms;
  [mapOffset (fun o => refl (rot o)) p].

(** The candidates with later repeats dropped. *)
Definition variants (p : list PatternBlock) : list (list PatternBlock) :=
  dedup_first (candidates p).

(** The search order of a call: what is left of the generator's list
    [reflections] when later repeats are dropped.  Its first candidate is
    the caller's own array, whatever the order of its entries'
    properties. *)
Definition searchOrder (p : list PatternBlock) : list (list PatternBlock) :=
  dedup_first (reflections p).

(** An integer small enough that binary64 adds it to another such without
    rounding, and prints it in decimal digits: at most [2 ^ 52] in
    magnitude. *)
Definition exact (n : Z) : Prop := - 2 ^ 52 <= n <= 2 ^ 52.

#[global] Instance exact_dec n : Decision (exact n).
Proof. unfold exact. apply _. Defined.

Definition exact_offset (o : Z * Z * Z) : Prop :=
  let '(a, b, c) := o in exact a /\ exact b /\ exact c.

#[global] Instance exact_offset_dec o : Decision (exact_offset o).
Proof. destruct o as [[a b] c]. unfold exact_offset. apply _. Defined.

(** A location whose coordinates are such integers. *)
Definition exact_location (l : Vector3 Z) : Prop :=
  exact (x l) /\ exact (y l) /\ exact (z l).

#[global] Instance exact_location_dec l : Decision (exact_location l).
Proof. unfold exact_location. apply _. Defined.

(** A pattern whose offsets are such integers. *)
Definition exact_offsets (p : list PatternBlock) : Prop :=
  Forall (fun b => exact_offset (offset b)) p.

#[global] Instance exact_offsets_dec p : Decision (exact_offsets p).
Proof. unfold exact_offsets. apply _. Defined.


(** Every entry is an object written [{ offset: ..., blockType: ... }]. *)
Definition written_offset_first (p : list PatternBlock) : Prop :=
  Forall (fun b => properties b = OffsetFirst) p.

#[global] Instance written_offset_first_dec p : Decision (written_offset_first p).
Proof. unfold written_offset_first. apply _. Defined.

(** The block lookup at [anchor + offset] finds the expected block type. *)
Definition block_matches (w : World) (anchor : Vector3 Z) (b : PatternBlock) : Prop :=
  blocks w !! coords (offsetLocation anchor b) = Some (blockType b).

#[global] Instance block_matches_dec w anchor b : Decision (block_matches w anchor b).
Proof. unfold block_matches. apply _. Defined.

(** Every offset of the variant satisfies the block lookup. *)
Definition variant_matches (w : World) (anchor : Vector3 Z) (c : list PatternBlock) : Prop :=
  Forall (block_matches w anchor) c.

#[global] Instance variant_matches_dec w anchor c : Decision (variant_matches w anchor c).
Proof. unfold variant_matches. apply _. Defined.

(** The number of lookups a variant needs: up to and including its first
    offset that does not match, all of them when every offset matches. *)
Definition probes (w : World) (anchor : Vector3 Z) (c : list PatternBlock) : nat :=
  match list_find (fun b => ~ block_matches w anchor b) c with
  | Some (i, _) => S i
  | None => length c
  end.

(** The locations looked up for one variant, in order. *)
Definition probed (w : World) (anchor : Vector3 Z) (c : list PatternBlock) : list (Vector3 Z) :=
  take (probes w anchor c) (offsetLocation anchor <$> c).

(** The variants tested: up to and including the first that matches. *)
Definition scanned (w : World) (anchor : Vector3 Z) (vs : list (list PatternBlock))
  : list (list PatternBlock) :=
  match list_find (variant_matches w anchor) vs with
  | Some (i, _) => take (S i) vs
  | None => vs
  end.

(** The expected outcome: the first variant that matches, if any. *)
Definition first_match (w : World) (anchor : Vector3 Z) (vs : list (list PatternBlock))
  : MatchResult :=
  match list_find (variant_matches w anchor) vs with
  | Some (_, c) => Matched c anchor
  | None => NoMatch
  end.

(** The blocks removed for a matched variant: the anchor, then its offsets. *)
Definition removed (anchor : Vector3 Z) (c : list PatternBlock) : list (Vector3 Z) :=
  anchor :: (offsetLocation anchor <$> c).

(** One removal: drops off, the destructive [setblock], drops on. *)
Definition removal (l : Vector3 Z) : list Call :=
  [SetDoTileDrops false; RunCommand (setblock l "air" destroy); SetDoTileDrops true].

(** The world with the calls [cs] appended to its log. *)
Definition logged (cs : list Call) (w : World) : World :=
  mkWorld (blocks w) (doTileDrops w) (drops w) (calls w ++ cs).

(** The grid with air at every location of [ls]. *)
Definition cleared (ls : list (Vector3 Z)) (m : gmap (Z * Z * Z) string)
  : gmap (Z * Z * Z) string :=
  foldl (fun m l => <[coords l := air]> m) m ls.

(** The world after the cleanup of a matched variant: air at the removed
    locations, the removals logged one by one, drops switched back on. *)
Definition destroyed (anchor : Vector3 Z) (c : list PatternBlock) (w : World) : World :=
  mkWorld (cleared (removed anchor c) (blocks w)) true (drops w)
          (calls w ++ (removed anchor c ≫= removal)).

(** The world a call leaves behind, from the world after its lookups. *)
Definition after_match (destroy : bool) (r : MatchResult) (w : World) : World :=
  match r with
  | Matched c anchor => if destroy then destroyed anchor c w else w
  | NoMatch => w
  end.

(** A call that changes the world (anything but a lookup). *)
Definition is_mutation (c : Call) : bool :=
  match c with GetBlock _ => false | _ => true end.

End MatcherSpec.

(** ** Variant generation in the specification's words

    Defined from the specification's text: a pattern is its ordered list
    of offsets and block types; the transform set is the identity, the 90,
    180 and 270 degree turns around the Y, the X and the Z axis, and, for
    each of those ten, the identity reflection and the mirror across each
    of the X, Y and Z axes; the candidates are deduplicated by exact
    structural equality, first occurrences surviving in order.  The text
    leaves the sense of the turns to the fixed list; it is taken from the
    list's quarter turns, and the half and three-quarter turns are the
    quarter turn repeated. *)
Module VariantSpec.
Import MatcherSpec.

(** What structural equality compares: the offset and the block type of
    each entry, in order. *)
Definition Entries : Type := list (Z * Z * Z * string).

Definition entries (p : list PatternBlock) : Entries :=
  (fun b => (offset b, blockType b)) <$> p.

(** Same offsets and block types in the same order. *)
Definition same_entries (p q : list PatternBlock) : Prop := entries p = entries q.

#[global] Instance same_entries_dec p q : Decision (same_entries p q).
Proof. unfold same_entries. apply _. Defined.

(** The 90 degree turn around each axis, in the sense of the fixed list. *)
Definition quarterTurnY : Z * Z * Z -> Z * Z * Z := fun '(a, b, c) => (c, b, - a).
Definition quarterTurnX : Z * Z * Z -> Z * Z * Z := fun '(a, b, c) => (a, - c, b).
Definition quarterTurnZ : Z * Z * Z -> Z * Z * Z := fun '(a, b, c) => (- b, a, c).

(** The 90, 180 and 270 degree turns around one axis. *)
Definition turns (quarter : Z * Z * Z -> Z * Z * Z) : list (Z * Z * Z -> Z * Z * Z) :=
  [ quarter;
    (fun o => quarter (quarter o));
    (fun o => quarter (quarter (quarter o))) ].

Definition rotationList : list (Z * Z * Z -> Z * Z * Z) :=
  (fun o => o) :: turns quarterTurnY ++ turns quarterTurnX ++ turns quarterTurnZ.

(** A mirror across an axis negates the coordinate along that axis. *)
Definition mirrorX : Z * Z * Z -> Z * Z * Z := fun '(a, b, c) => (- a, b, c).
Definition mirrorY : Z * Z * Z -> Z * Z * Z := fun '(a, b, c) => (a, - b, c).
Definition mirrorZ : Z * Z * Z -> Z * Z * Z := fun '(a, b, c) => (a, b, - c).

Definition reflectionList : list (Z * Z * Z -> Z * Z * Z) :=
  [ (fun o => o); mirrorX; mirrorY; mirrorZ ].

(** A transform is applied to the offsets only. *)
Definition transformed (f : Z * Z * Z -> Z * Z * Z) (e : Entries) : Entries :=
  (fun '(o, t) => (f o, t)) <$> e.

(** Up to forty candidates: each rotation combined with each reflection. *)
Definition candidateEntries (e : Entries) : list Entries :=
  rot ← rotationList;
  refl ← reflectionList;
  [transformed (fun o => refl (rot o)) e].

(** The search order: the candidates deduplicated by structural equality,
    first occurrences surviving in order. *)
Definition variantEntries (e : Entries) : list Entries :=
  dedup_first (candidateEntries e).

(** The variant stands at the anchor of the grid. *)
Definition stands (grid : gmap (Z * Z * Z) string) (anchor : Z * Z * Z) (e : Entries) : Prop :=
  Forall (fun '((dx, dy, dz), t) =>
            let '(ax, ay, az) := anchor in
            grid !! (ax + dx, ay + dy, az + dz) = Some t) e.

#[global] Instance stands_dec grid anchor e : Decision (stands grid anchor e).
Proof.
  unfold stands. apply Forall_dec. intros [[[dx dy] dz] t].
  destruct anchor as [[ax ay] az]. apply _.
Defined.

End VariantSpec.

(** ** The pattern of the event handler

    The T-pose pattern the [playerPlaceBlock] handler builds for a diamond
    block, and two worlds to run it in. *)
Module TPose.
Import Host BlockMatcher.

Definition iron : string := "minecraft:iron_block".
Definition diamond : string := "minecraft:diamond_block".

Definition anchor : Vector3 Z := mkVector3 5 10 5.

Definition tPosePattern : Pattern :=
  mkPattern (TriggerBlock.mk diamond anchor)
    [ mkBlock (0, -1, 0) iron; mkBlock (0, -2, 0) iron;
      mkBlock (0, -1, 1) iron; mkBlock (0, -1, -1) iron ].

(** The figure built along the X axis, a quarter turn away from the
    pattern as written; drops are off before the call. *)
Definition turnedVariant : list PatternBlock :=
  [ mkBlock (0, -1, 0) iron; mkBlock (0, -2, 0) iron;
    mkBlock (1, -1, 0) iron; mkBlock (-1, -1, 0) iron ].

Definition builtWorld : World :=
  mkWorld (list_to_map [ ((5, 10, 5), diamond); ((5, 9, 5), iron); ((5, 8, 5), iron);
                         ((6, 9, 5), iron); ((4, 9, 5), iron) ])
          false [] [].

(** Only the diamond block stands; nothing can be read around it. *)
Definition bareWorld : World :=
  mkWorld (list_to_map [ ((5, 10, 5), diamond) ]) true [] [].

End TPose.

(** ** Two more patterns a caller can pass *)
Module Samples.
Import Host BlockMatcher.

(** [[{ blockType: "minecraft:iron_block", offset: [0, -1, 0] }]]: one
    entry, written with its block type first. *)
Definition swappedPattern : list PatternBlock :=
  [ mkEntry BlockTypeFirst (0, -1, 0) TPose.iron ].

(** The same entry as the generator's object literals write it. *)
Definition swappedCopy : list PatternBlock :=
  [ mkBlock (0, -1, 0) TPose.iron ].

(** [[{ offset: [1, 2, 3], blockType: "minecraft:iron_block" }]]: one
    entry, off every axis and every diagonal. *)
Definition skewPattern : list PatternBlock :=
  [ mkBlock (1, 2, 3) TPose.iron ].

Definition origin : Vector3 Z := mkVector3 0 0 0.

(** A diamond block at the origin and one iron block, where the skew
    pattern turned 90 degrees around the Y axis and then mirrored across
    the Y axis expects it. *)
Definition skewWorld : World :=
  mkWorld (list_to_map [ ((0, 0, 0), TPose.diamond); ((3, -2, -1), TPose.iron) ])
          true [] [].

(** Only the diamond block at the origin. *)
Definition emptyWorld : World :=
  mkWorld (list_to_map [ ((0, 0, 0), TPose.diamond) ]) true [] [].

End Samples.

(** ** The constructor of [Vector3] *)
Module Vector3New.
Import Number.

(** [constructor(x = 0, y = 0, z = 0)]: an argument left out (or
    [undefined]) takes its default. *)
Definition constructor (x y z : option number) : Vector3 number :=
  mkVector3 (default zero x) (default zero y) (default zero z).

(** A finite value: neither NaN nor an infinity. *)
Definition finite (a : number) : Prop :=
  match a with
  | S754_zero _ | S754_finite _ _ _ => True
  | S754_infinity _ | S754_nan => False
  end.

(** NaN, or a value whose sign bit is clear. *)
Definition not_negative (a : number) : Prop :=
  match a with
  | S754_nan => True
  | S754_zero sign | S754_infinity sign | S754_finite sign _ _ => sign = false
  end.

(** Two numbers are the same value: both are zeros (of either sign), or
    they are one and the same number and not NaN. *)
Definition same_value (a b : number) : Prop :=
  (is_zero a /\ is_zero b) \/ (a = b /\ a <> S754_nan).

End Vector3New.

(** ** The event handler

    The [playerPlaceBlock] subscriber: on a diamond block it runs the
    matcher on the T-pose below the block and spawns a cow there, or warns. *)
Module Handler.
Import Host BlockMatcher.

(** [eventData.block], as far as the handler reads it. *)
Record PlacedBlock : Type := mkPlaced { typeId : string; location : Vector3 Z }.

(** What the handler does besides calling the matcher. *)
Inductive Effect : Type :=
| SpawnEntity (identifier : string) (location : Vector3 Z)
| ConsoleWarn (message : string).

Definition tPoseBlocks : list PatternBlock :=
  [ mkBlock (0, -1, 0) "minecraft:iron_block";
    mkBlock (0, -2, 0) "minecraft:iron_block";
    mkBlock (0, -1, 1) "minecraft:iron_block";
    mkBlock (0, -1, -1) "minecraft:iron_block" ].

Definition tPosePattern (b : PlacedBlock) : Pattern :=
  mkPattern
    (TriggerBlock.mk "minecraft:diamond_block"
       (mkVector3 (x (location b)) (y (location b)) (z (location b))))
    tPoseBlocks.

(** The subscriber's body; the effects it requested are its result. *)
Definition onPlayerPlaceBlock (b : PlacedBlock) : M (list Effect) :=
  if bool_decide (typeId b = "minecraft:diamond_block")
  then
    tPose ← matchBlocks (tPosePattern b) (Options.mk true);
    match tPose with
    | Matched _ center => mret [SpawnEntity "minecraft:cow" center]
    | NoMatch => mret [ConsoleWarn "Pattern not matched"]
    end
  else mret [].

(** A world where the figure stands below the diamond block as the
    pattern is written, and the same world with a gold block in the
    diamond's place. *)
Definition standingWorld : World :=
  mkWorld (list_to_map [ ((5, 10, 5), "minecraft:diamond_block");
                         ((5, 9, 5), "minecraft:iron_block");
                         ((5, 8, 5), "minecraft:iron_block");
                         ((5, 9, 6), "minecraft:iron_block");
                         ((5, 9, 4), "minecraft:iron_block") ])
          true [] [].


Definition placedDiamond : PlacedBlock :=
  mkPlaced "minecraft:diamond_block" (mkVector3 5 10 5).

(** The figure lying along the X axis with its arms up and down. *)
Definition lyingWorld : World :=
  mkWorld (list_to_map [ ((5, 10, 5), "minecraft:diamond_block");
                         ((6, 10, 5), "minecraft:iron_block");
                         ((7, 10, 5), "minecraft:iron_block");
                         ((6, 11, 5), "minecraft:iron_block");
                         ((6, 9, 5), "minecraft:iron_block") ])
          true [] [].

End Handler.

(** ** Measures on offsets *)
Module OffsetSpec.

(** The squared distance between two offsets. *)
Definition sqdist (o1 o2 : Z * Z * Z) : Z :=
  let '(a1, b1, c1) := o1 in
  let '(a2, b2, c2) := o2 in
  (a1 - a2) * (a1 - a2) + (b1 - b2) * (b1 - b2) + (c1 - c2) * (c1 - c2).

(** A transform of offsets that keeps distances and the origin. *)
Definition rigid (f : Z * Z * Z -> Z * Z * Z) : Prop :=
  (forall o1 o2, sqdist (f o1) (f o2) = sqdist o1 o2) /\ f (0, 0, 0) = (0, 0, 0).

(** The twelve ways an upright T of four blocks can stand or lie below,
    beside or above the anchor: the body along one of the six axis
    directions, the arms along one of the two other axes. *)
Definition tShape (body arm : Z * Z * Z) : list (Z * Z * Z) :=
  let '(bx, by_, bz) := body in
  let '(ax, ay, az) := arm in
  [ (bx, by_, bz); (2 * bx, 2 * by_, 2 * bz);
    (bx + ax, by_ + ay, bz + az); (bx - ax, by_ - ay, bz - az) ].

(** The orientations in which the handler's figure is found: upright or
    upside down with the arms along either horizontal axis, lying along
    the Z axis with the arms up and down, lying along the X axis with the
    arms along Z. *)
Definition recognisedPoses : list ((Z * Z * Z) * (Z * Z * Z)) :=
  [ ((0, -1, 0), (0, 0, 1)); ((0, 1, 0), (0, 0, 1));
    ((0, -1, 0), (1, 0, 0)); ((0, 1, 0), (1, 0, 0));
    ((0, 0, -1), (0, 1, 0)); ((0, 0, 1), (0, 1, 0));
    ((1, 0, 0), (0, 0, 1)); ((-1, 0, 0), (0, 0, 1)) ].

(** The grid position at an offset from a location. *)
Definition at_offset (l : Vector3 Z) (o : Z * Z * Z) : Z * Z * Z :=
  let '(a, b, c) := o in (x l + a, y l + b, z l + c).

(** Iron blocks stand at the four positions of the pose around [l]. *)
Definition pose_stands (grid : gmap (Z * Z * Z) string) (l : Vector3 Z)
    (pose : (Z * Z * Z) * (Z * Z * Z)) : Prop :=
  Forall (fun o => grid !! at_offset l o = Some "minecraft:iron_block")
         (tShape (fst pose) (snd pose)).

(** The four iron blocks of a pose, as pattern entries. *)
Definition pose_blocks (pose : (Z * Z * Z) * (Z * Z * Z)) : list PatternBlock :=
  (fun o => mkBlock o "minecraft:iron_block") <$> tShape (fst pose) (snd pose).

End OffsetSpec.

(** * Facts *)

(** ** JSON: what [stringify] writes, [parse] reads back *)
Module JSONFacts.
Import JSON.

#[local] Arguments String.append !_ _ / : simpl nomatch.

Lemma append_assoc (a b c : string) : (a +:+ b) +:+ c = a +:+ (b +:+ c).
Proof. induction a as [|ch a IH]; cbn [String.append]; [reflexivity | now f_equal]. Qed.

Lemma append_length (a b : string) :
  String.length (a +:+ b) = (String.length a + String.length b)%nat.
Proof.
  induction a as [|ch a IH]; simpl; congruence.
Qed.

Lemma expect_append (p s : string) : expect p (p +:+ s) = Some s.
Proof.
  induction p as [|c p IH]; simpl; [reflexivity |].
  now rewrite Ascii.eqb_refl.
Qed.

(** Every code unit survives quoting and unquoting. *)
Lemma parse_quote_char (c : ascii) (s rest : string) (r : option (string * string)) :
  parse_string_body (quote_body s +:+ String dquote rest) = r ->
  parse_string_body (quote_char c +:+ quote_body s +:+ String dquote rest)
  = cons_char c r.
Proof.
  intros <-.
  destruct c as [[] [] [] [] [] [] [] []]; reflexivity.
Qed.

Lemma parse_quote_body (s rest : string) :
  parse_string_body (quote_body s +:+ String dquote rest) = Some (s, rest).
Proof.
  induction s as [|c s IH]; [reflexivity |].
  cbn [quote_body]. rewrite append_assoc.
  now rewrite (parse_quote_char c s rest _ IH).
Qed.

Lemma parse_QuoteJSONString (s rest : string) :
  parse_string (QuoteJSONString s +:+ rest) = Some (s, rest).
Proof.
  unfold QuoteJSONString. cbn [String.append parse_string].
  rewrite Ascii.eqb_refl, append_assoc. apply parse_quote_body.
Qed.

(** The digits of a number stop being read at the first character that is
    not a digit. *)
Lemma span_uint (d : uint) (c : ascii) (rest : string) :
  is_number_char c = false ->
  span_number (NilEmpty.string_of_uint d +:+ String c rest)
  = (NilEmpty.string_of_uint d, String c rest).
Proof.
  intros Hc.
  induction d as [|d IH|d IH|d IH|d IH|d IH|d IH|d IH|d IH|d IH|d IH];
    simpl; [now rewrite Hc | now rewrite IH ..].
Qed.

Lemma NilZero_uint (d : uint) :
  exists d', NilZero.string_of_uint d = NilEmpty.string_of_uint d'.
Proof. destruct d; [exists (D0 Nil) | eexists ..]; reflexivity. Qed.

Lemma span_int (d : int) (c : ascii) (rest : string) :
  is_number_char c = false ->
  span_number (NilZero.string_of_int d +:+ String c rest)
  = (NilZero.string_of_int d, String c rest).
Proof.
  intros Hc. destruct d as [d|d]; simpl;
    destruct (NilZero_uint d) as [d' ->]; now rewrite span_uint.
Qed.

Lemma to_int_parses (n : Z) :
  NilZero.int_of_string (NilZero.string_of_int (Z.to_int n)) = Some (Z.to_int n).
Proof.
  apply NilZero.isi; destruct n; simpl; try discriminate;
    intros [= H]; now apply Unsigned.to_uint_nonnil in H.
Qed.

Lemma parse_Number_toString (n : Z) (c : ascii) (rest : string) :
  is_number_char c = false ->
  parse_number (Number_toString n +:+ String c rest) = Some (n, String c rest).
Proof.
  intros Hc. unfold parse_number, Number_toString.
  rewrite span_int by exact Hc.
  now rewrite to_int_parses, DecimalZ.of_to.
Qed.

Lemma parse_stringify_offset (o : Z * Z * Z) (c : ascii) (rest : string) :
  parse_offset (stringify_offset o +:+ String c rest) = Some (o, String c rest).
Proof.
  destruct o as [[ox oy] oz].
  unfold parse_offset, stringify_offset.
  rewrite !append_assoc.
  cbn [String.append expect Ascii.eqb Bool.eqb mbind option_bind].
  rewrite parse_Number_toString by reflexivity.
  cbn [String.append expect Ascii.eqb Bool.eqb mbind option_bind].
  rewrite parse_Number_toString by reflexivity.
  cbn [String.append expect Ascii.eqb Bool.eqb mbind option_bind].
  rewrite parse_Number_toString by reflexivity.
  cbn [String.append expect Ascii.eqb Bool.eqb mbind option_bind].
  reflexivity.
Qed.

Lemma parse_stringify_block (b : PatternBlock) (rest : string) :
  parse_block (stringify_block b +:+ rest) = Some (b, rest).
Proof.
  destruct b as [[|] o t].
  - unfold parse_block, stringify_block.
    cbn [properties offset blockType].
    repeat match goal with
           | |- context [key ?k] =>
               let v := eval vm_compute in (key k) in change (key k) with v
           end.
    rewrite !append_assoc.
    cbn [String.append expect Ascii.eqb Bool.eqb mbind option_bind].
    rewrite parse_stringify_offset.
    cbn [String.append expect Ascii.eqb Bool.eqb mbind option_bind].
    rewrite parse_QuoteJSONString.
    reflexivity.
  - unfold parse_block, stringify_block.
    cbn [properties offset blockType].
    repeat match goal with
           | |- context [key ?k] =>
               let v := eval vm_compute in (key k) in change (key k) with v
           end.
    rewrite !append_assoc.
    cbn [String.append expect Ascii.eqb Bool.eqb mbind option_bind].
    rewrite (parse_QuoteJSONString t).
    cbn [String.append expect Ascii.eqb Bool.eqb mbind option_bind].
    rewrite parse_stringify_offset.
    reflexivity.
Qed.

Lemma stringify_block_head (b : PatternBlock) :
  exists tl, stringify_block b = String "{" tl.
Proof. unfold stringify_block. destruct (properties b); simpl; eauto. Qed.

Lemma stringify_elems_cons (b : PatternBlock) (l : list PatternBlock) :
  exists tl, stringify_elems (b :: l) = String "{" tl.
Proof.
  destruct (stringify_block_head b) as [tl Hb].
  destruct l; cbn [stringify_elems]; rewrite Hb; simpl; eauto.
Qed.

Lemma stringify_elems_length (l : list PatternBlock) :
  (length l <= String.length (stringify_elems l))%nat.
Proof.
  induction l as [|b [|b' l] IH].
  - simpl. lia.
  - destruct (stringify_block_head b) as [tl Hb]. cbn [stringify_elems].
    rewrite Hb. simpl. lia.
  - destruct (stringify_block_head b) as [tl Hb].
    change (stringify_elems (b :: b' :: l))
      with (stringify_block b +:+ "," +:+ stringify_elems (b' :: l)).
    rewrite Hb, !append_length. simpl in *. lia.
Qed.

Lemma parse_stringify_elems (l : list PatternBlock) (fuel : nat) (rest : string) :
  l <> [] -> (length l <= fuel)%nat ->
  parse_elems fuel (stringify_elems l +:+ String "]" rest) = Some (l, rest).
Proof.
  revert fuel. induction l as [|b [|b' l] IH]; intros fuel Hne Hfuel; [done | |].
  - destruct fuel as [|fuel]; [simpl in Hfuel; lia |].
    cbn [stringify_elems parse_elems].
    now rewrite parse_stringify_block.
  - destruct fuel as [|fuel]; [simpl in Hfuel; lia |].
    change (stringify_elems (b :: b' :: l))
      with (stringify_block b +:+ "," +:+ stringify_elems (b' :: l)).
    cbn [parse_elems]. rewrite !append_assoc, parse_stringify_block.
    cbn [String.append mbind option_bind].
    rewrite IH; [reflexivity | done | simpl in *; lia].
Qed.

(** [JSON.parse(JSON.stringify(c))] is [c], for every pattern [c]. *)
Lemma parse_stringify (l : list PatternBlock) : parse (stringify l) = Some l.
Proof.
  destruct l as [|b l]; [reflexivity |].
  unfold stringify.
  pose proof (stringify_elems_length (b :: l)) as Hlen.
  destruct (stringify_elems_cons b l) as [tl Htl].
  assert (Hparse : parse_elems (String.length ("[" +:+ stringify_elems (b :: l) +:+ "]"))
            (stringify_elems (b :: l) +:+ "]") = Some (b :: l, "")).
  { apply parse_stringify_elems; [done |].
    rewrite append_length, append_length. simpl in *. lia. }
  revert Hparse. rewrite Htl. intros Hparse.
  change (parse ("[" +:+ String "{" tl +:+ "]"))
    with (match parse_elems (String.length ("[" +:+ String "{" tl +:+ "]"))
                  (String "{" tl +:+ "]") with
          | Some (l, EmptyString) => Some l
          | _ => None
          end).
  now rewrite Hparse.
Qed.

(** Two patterns with the same text are the same pattern. *)
Lemma stringify_inj (l1 l2 : list PatternBlock) :
  stringify l1 = stringify l2 -> l1 = l2.
Proof.
  intros H. apply (f_equal parse) in H.
  rewrite !parse_stringify in H. now injection H.
Qed.

End JSONFacts.

(** ** Variant generation *)
Module GenerationFacts.
Import Host BlockMatcher MatcherSpec.

Lemma filter_Forall_id {A : Type} (P : A -> Prop) `{forall a, Decision (P a)} (l : list A) :
  Forall P l -> filter P l = l.
Proof.
  induction 1 as [|a l Ha Hl IH]; [done |].
  rewrite filter_cons_True by done. now f_equal.
Qed.

Section Dedup.
Context {A : Type} `{EqDecision A}.

Lemma dedup_first_elem (l : list A) (a : A) : a ∈ dedup_first l <-> a ∈ l.
Proof.
  induction l as [|b l IH]; simpl; [done |].
  rewrite !elem_of_cons, list_elem_of_filter, IH.
  destruct (decide (a = b)) as [->|Hne]; [tauto |].
  split; [intros [?|[_ ?]]; tauto | intros [?|?]; tauto].
Qed.

Lemma dedup_first_NoDup (l : list A) : NoDup (dedup_first l).
Proof.
  induction l as [|b l IH]; simpl; constructor.
  - rewrite list_elem_of_filter. intros [Hne _]. now apply Hne.
  - now apply NoDup_filter.
Qed.

Lemma dedup_first_sublist (l : list A) : sublist (dedup_first l) l.
Proof.
  induction l as [|b l IH]; simpl; [done |].
  apply sublist_skip. etrans; [apply sublist_filter | done].
Qed.

Lemma dedup_first_length (l : list A) : (length (dedup_first l) <= length l)%nat.
Proof. apply sublist_length, dedup_first_sublist. Qed.

Lemma dedup_first_head (l : list A) : head (dedup_first l) = head l.
Proof. now destruct l. Qed.

(** A list without duplicates is its own deduplication. *)
Lemma dedup_first_id (l : list A) : NoDup l -> dedup_first l = l.
Proof.
  induction 1 as [|a l Hin Hnd IH]; simpl; [done |].
  rewrite IH. f_equal.
  apply filter_Forall_id, Forall_forall. intros b Hb ->. done.
Qed.

(** Searching the deduplicated list finds what searching the list finds. *)
Lemma list_find_filter_ne (P : A -> Prop) `{forall a, Decision (P a)} (a : A) (l : list A) :
  ~ P a ->
  snd <$> list_find P (filter (fun b => b <> a) l) = snd <$> list_find P l.
Proof.
  intros Ha. induction l as [|b l IH]; [done |].
  destruct (decide (b = a)) as [->|Hne].
  - rewrite filter_cons_False by (intros Hn; now apply Hn).
    cbn [list_find]. rewrite decide_False by done.
    rewrite IH. now destruct (list_find P l) as [[i c]|].
  - rewrite filter_cons_True by done. cbn [list_find].
    destruct (decide (P b)); [done |].
    destruct (list_find P (filter _ l)) as [[i c]|], (list_find P l) as [[i' c']|];
      cbn in *; congruence.
Qed.

Lemma list_find_dedup_first (P : A -> Prop) `{forall a, Decision (P a)} (l : list A) :
  snd <$> list_find P (dedup_first l) = snd <$> list_find P l.
Proof.
  induction l as [|a l IH]; [done |].
  cbn [dedup_first list_find].
  destruct (decide (P a)) as [Ha|Ha]; [done |].
  pose proof (list_find_filter_ne P a (dedup_first l) Ha) as Hf.
  destruct (list_find P (filter _ (dedup_first l))) as [[i c]|],
           (list_find P (dedup_first l)) as [[i' c']|],
           (list_find P l) as [[i'' c'']|]; cbn in *; congruence.
Qed.

End Dedup.

(** A JavaScript [Set] built from a list keeps the first occurrences. *)
Lemma foldl_Set_add (acc ks : list string) :
  foldl Set_add acc ks = acc ++ filter (fun k => k ∉ acc) (dedup_first ks).
Proof.
  revert acc. induction ks as [|k ks IH]; intros acc; simpl.
  - now rewrite app_nil_r.
  - rewrite IH. unfold Set_add. case_bool_decide as Hk.
    + rewrite filter_cons_False by (intros Hn; now apply Hn).
      rewrite list_filter_filter. f_equal.
      apply list_filter_iff. intros k'. split; [| now intros [? _]].
      intros Hk'. split; [done |]. now intros ->.
    + rewrite filter_cons_True by done.
      rewrite list_filter_filter, <- app_assoc. simpl. do 2 f_equal.
      apply list_filter_iff. intros k'.
      rewrite elem_of_app, list_elem_of_singleton. tauto.
Qed.

Lemma Set_new_dedup (ks : list string) : Set_new ks = dedup_first ks.
Proof.
  unfold Set_new. rewrite foldl_Set_add. simpl.
  apply filter_Forall_id, Forall_forall. intros k _. apply not_elem_of_nil.
Qed.

Lemma filter_ne_fmap {A B : Type} `{EqDecision A} `{EqDecision B}
    (f : A -> B) (a : A) (l : list A) :
  (forall a b, f a = f b -> a = b) ->
  filter (fun b => b <> f a) (f <$> l) = f <$> filter (fun b => b <> a) l.
Proof.
  intros Hinj. induction l as [|b l IH]; csimpl; [done |].
  destruct (decide (b = a)) as [->|Hne].
  - now rewrite !filter_cons_False by (intros Hn; now apply Hn).
  - rewrite !filter_cons_True by (try done; intros Hfb; now apply Hne, Hinj).
    csimpl. now f_equal.
Qed.

Lemma dedup_first_fmap {A B : Type} `{EqDecision A} `{EqDecision B}
    (f : A -> B) (l : list A) :
  (forall a b, f a = f b -> a = b) ->
  dedup_first (f <$> l) = f <$> dedup_first l.
Proof.
  intros Hinj. induction l as [|a l IH]; csimpl; [done |].
  rewrite IH. f_equal. now apply filter_ne_fmap.
Qed.

Lemma mapParse_stringify (cs : list (list PatternBlock)) :
  mapParse (JSON.stringify <$> cs) = Return cs.
Proof.
  induction cs as [|c cs IH]; [done |].
  rewrite fmap_cons. cbn [mapParse].
  now rewrite JSONFacts.parse_stringify, IH.
Qed.

Lemma mapOffset_ext (f g : Z * Z * Z -> Z * Z * Z) (p : list PatternBlock) :
  (forall o, f o = g o) -> mapOffset f p = mapOffset g p.
Proof.
  intros Hfg. unfold mapOffset. apply map_ext. intros b. now rewrite Hfg.
Qed.

Lemma mapOffset_id (p : list PatternBlock) :
  written_offset_first p -> mapOffset (fun o => o) p = p.
Proof.
  unfold mapOffset. induction 1 as [|[k o t] p Hk _ IH]; simpl; [done |].
  cbn in Hk. subst k. now rewrite IH.
Qed.

Lemma mapOffset_written (f : Z * Z * Z -> Z * Z * Z) (p : list PatternBlock) :
  written_offset_first (mapOffset f p).
Proof.
  unfold written_offset_first, mapOffset. apply Forall_forall. intros b Hb.
  apply list_elem_of_In, in_map_iff in Hb as (q & <- & _). reflexivity.
Qed.

Lemma mapOffset_mapOffset (f g : Z * Z * Z -> Z * Z * Z) (p : list PatternBlock) :
  mapOffset f (mapOffset g p) = mapOffset (fun o => f (g o)) p.
Proof. unfold mapOffset. now rewrite map_map. Qed.

(** The generator's list is the caller's array followed by the other
    thirty-nine candidates, in the same order. *)
Lemma reflections_shape (p : list PatternBlock) :
  reflections p = p :: tail (candidates p).
Proof.
  unfold reflections, rotations, candidates, rotationTransforms, reflectionTransforms.
  cbn [flat_map app mbind list_bind mjoin list_join fmap list_fmap tail].
  rewrite !mapOffset_mapOffset.
  repeat (f_equal; [apply mapOffset_ext; intros [[a b] c]; reflexivity |]).
  reflexivity.
Qed.

Lemma candidates_length (p : list PatternBlock) : length (candidates p) = 40%nat.
Proof. reflexivity. Qed.

Lemma candidates_head (p : list PatternBlock) :
  head (candidates p) = Some (mapOffset (fun o => o) p).
Proof. reflexivity. Qed.

Lemma reflections_length (p : list PatternBlock) : length (reflections p) = 40%nat.
Proof. now rewrite reflections_shape. Qed.

Lemma reflections_head (p : list PatternBlock) : head (reflections p) = Some p.
Proof. now rewrite reflections_shape. Qed.

(** For a pattern written offset first it is the forty candidates. *)
Lemma reflections_candidates (p : list PatternBlock) :
  written_offset_first p -> reflections p = candidates p.
Proof.
  intros Hp. rewrite reflections_shape.
  pose proof (candidates_head p) as Hhead. rewrite (mapOffset_id p Hp) in Hhead.
  pose proof (candidates_length p) as Hlen.
  destruct (candidates p) as [|c cs]; [discriminate |].
  injection Hhead as ->. reflexivity.
Qed.

Lemma reflections_elem (p c : list PatternBlock) :
  c ∈ reflections p -> c = p \/ c ∈ candidates p.
Proof.
  rewrite reflections_shape, elem_of_cons. intros [->|Hc]; [now left | right].
  pose proof (candidates_length p) as Hlen.
  destruct (candidates p) as [|c0 cs]; [discriminate |]. now right.
Qed.

(** The code's search order: the round trip through the texts keeps every
    candidate as it is and drops exactly the later repeats. *)
Lemma generateCombinations_searchOrder (p : list PatternBlock) :
  generateCombinations p = Return (searchOrder p).
Proof.
  unfold generateCombinations, searchOrder.
  rewrite Set_new_dedup.
  rewrite (dedup_first_fmap JSON.stringify) by apply JSONFacts.stringify_inj.
  apply mapParse_stringify.
Qed.

Lemma searchOrder_variants (p : list PatternBlock) :
  written_offset_first p -> searchOrder p = variants p.
Proof. intros Hp. unfold searchOrder, variants. now rewrite reflections_candidates. Qed.

Lemma searchOrder_elem (p c : list PatternBlock) :
  c ∈ searchOrder p -> c = p \/ c ∈ candidates p.
Proof. unfold searchOrder. rewrite dedup_first_elem. apply reflections_elem. Qed.

Lemma searchOrder_head (p : list PatternBlock) : head (searchOrder p) = Some p.
Proof. unfold searchOrder. now rewrite dedup_first_head, reflections_head. Qed.

Lemma searchOrder_length (p : list PatternBlock) : (length (searchOrder p) <= 40)%nat.
Proof.
  unfold searchOrder. etrans; [apply dedup_first_length |]. now rewrite reflections_length.
Qed.

End GenerationFacts.

(** ** Running the matcher against a world *)
Module RunFacts.
Import Host BlockMatcher MatcherSpec.

Lemma logged_nil (w : World) : logged [] w = w.
Proof. destruct w. unfold logged. simpl. now rewrite app_nil_r. Qed.

Lemma logged_logged (cs1 cs2 : list Call) (w : World) :
  logged cs2 (logged cs1 w) = logged (cs1 ++ cs2) w.
Proof. unfold logged. simpl. now rewrite app_assoc. Qed.

(** Logging leaves the grid alone, so what matches is unchanged. *)
Lemma probed_logged (cs : list Call) (w : World) (anchor : Vector3 Z) (c : list PatternBlock) :
  probed (logged cs w) anchor c = probed w anchor c.
Proof. reflexivity. Qed.

Lemma variant_matches_logged (cs : list Call) (w : World) (anchor : Vector3 Z)
    (c : list PatternBlock) :
  bool_decide (variant_matches (logged cs w) anchor c)
  = bool_decide (variant_matches w anchor c).
Proof. reflexivity. Qed.

Lemma probed_nil (w : World) (anchor : Vector3 Z) : probed w anchor [] = [].
Proof. reflexivity. Qed.

Lemma probed_cons (w : World) (anchor : Vector3 Z) (b : PatternBlock) (c : list PatternBlock) :
  probed w anchor (b :: c)
  = offsetLocation anchor b
      :: (if decide (block_matches w anchor b) then probed w anchor c else []).
Proof.
  unfold probed, probes. cbn [list_find].
  destruct (decide (block_matches w anchor b)) as [Hb|Hb].
  - rewrite decide_False by (intros Hn; now apply Hn).
    destruct (list_find _ c) as [[i b']|]; reflexivity.
  - rewrite decide_True by done. reflexivity.
Qed.

Lemma variant_matches_cons (w : World) (anchor : Vector3 Z) (b : PatternBlock)
    (c : list PatternBlock) :
  bool_decide (variant_matches w anchor (b :: c))
  = bool_decide (block_matches w anchor b) && bool_decide (variant_matches w anchor c).
Proof.
  rewrite <- bool_decide_and. apply bool_decide_ext, Forall_cons.
Qed.

Lemma checkCombination_run (anchor : Vector3 Z) (c : list PatternBlock) (w : World) :
  checkCombination anchor c w
  = (Return (bool_decide (variant_matches w anchor c)),
     logged (GetBlock <$> probed w anchor c) w).
Proof.
  revert w. induction c as [|b c IH]; intros w.
  - cbn. now rewrite logged_nil.
  - rewrite probed_cons, variant_matches_cons.
    cbn [checkCombination]. unfold mbind, M_bind.
    change (getBlock (offsetLocation anchor b) w)
      with (Return (mkHostBlock <$> blocks w !! coords (offsetLocation anchor b)),
            logged [GetBlock (offsetLocation anchor b)] w).
    cbn beta iota.
    destruct (decide (block_matches w anchor b)) as [Hb|Hb].
    + rewrite (bool_decide_eq_true_2 _ Hb). unfold block_matches in Hb. rewrite Hb.
      cbn [fmap option_fmap option_map typeId].
      rewrite bool_decide_eq_false_2 by (intros Hn; now apply Hn).
      rewrite IH, logged_logged. reflexivity.
    + rewrite (bool_decide_eq_false_2 _ Hb). unfold block_matches in Hb.
      rewrite bool_decide_eq_true_2; [reflexivity |].
      destruct (blocks w !! coords (offsetLocation anchor b)) as [t|]; cbn; congruence.
Qed.

Lemma destroyBlock_run (l : Vector3 Z) (w : World) :
  destroyBlock l w
  = (Return (),
     mkWorld (<[coords l := air]> (blocks w)) true (drops w) (calls w ++ removal l)).
Proof.
  unfold destroyBlock, removal, mbind, M_bind, setDoTileDrops, runCommand, log.
  cbn. now rewrite app_nil_r, <- !app_assoc.
Qed.

Lemma destroyEach_run (anchor : Vector3 Z) (c : list PatternBlock) (w : World) :
  doTileDrops w = true ->
  destroyEach anchor c w
  = (Return (),
     mkWorld (cleared (offsetLocation anchor <$> c) (blocks w)) true (drops w)
             (calls w ++ ((offsetLocation anchor <$> c) ≫= removal))).
Proof.
  revert w. induction c as [|b c IH]; intros w Hw.
  - destruct w. cbn in *. subst. now rewrite app_nil_r.
  - cbn [destroyEach]. unfold mbind at 1. unfold M_bind.
    rewrite destroyBlock_run, IH by reflexivity.
    cbn [blocks drops calls doTileDrops]. rewrite fmap_cons, bind_cons.
    now rewrite app_assoc.
Qed.

Lemma destroyBlocks_run (anchor : Vector3 Z) (c : list PatternBlock) (w : World) :
  destroyBlocks anchor c w = (Return (), destroyed anchor c w).
Proof.
  unfold destroyBlocks, destroyed, removed, mbind, M_bind.
  rewrite destroyBlock_run, destroyEach_run by reflexivity.
  cbn [blocks drops calls doTileDrops]. rewrite bind_cons.
  now rewrite app_assoc.
Qed.

Lemma coords_inj (l1 l2 : Vector3 Z) : coords l1 = coords l2 -> l1 = l2.
Proof. destruct l1, l2. unfold coords. cbn. congruence. Qed.

Lemma cleared_lookup_out (ls : list (Vector3 Z)) (m : gmap (Z * Z * Z) string)
    (k : Z * Z * Z) :
  (forall l, l ∈ ls -> coords l <> k) -> cleared ls m !! k = m !! k.
Proof.
  revert m. unfold cleared.
  induction ls as [|l ls IH]; intros m Hout; [done |].
  cbn [foldl]. rewrite IH by (intros l' Hl'; apply Hout; now right).
  apply lookup_insert_ne, Hout. now left.
Qed.

Lemma cleared_lookup_in (ls : list (Vector3 Z)) (m : gmap (Z * Z * Z) string)
    (l : Vector3 Z) :
  l ∈ ls -> cleared ls m !! coords l = Some air.
Proof.
  revert m.
  induction ls as [|l' ls IH]; intros m Hin; [now apply elem_of_nil in Hin |].
  unfold cleared.
  cbn [foldl]. fold (cleared ls (<[coords l' := air]> m)).
  destruct (decide (l ∈ ls)) as [Hl|Hl]; [now apply IH |].
  apply elem_of_cons in Hin as [->|Hin]; [| done].
  rewrite cleared_lookup_out; [apply lookup_insert_eq |].
  intros l0 Hl0 Heq. apply coords_inj in Heq as ->. done.
Qed.

Lemma scanned_cons (w : World) (anchor : Vector3 Z) (c : list PatternBlock)
    (vs : list (list PatternBlock)) :
  scanned w anchor (c :: vs)
  = c :: (if decide (variant_matches w anchor c) then [] else scanned w anchor vs).
Proof.
  unfold scanned. cbn [list_find].
  destruct (decide (variant_matches w anchor c)); [reflexivity |].
  destruct (list_find _ vs) as [[i c']|]; reflexivity.
Qed.

Lemma first_match_cons (w : World) (anchor : Vector3 Z) (c : list PatternBlock)
    (vs : list (list PatternBlock)) :
  first_match w anchor (c :: vs)
  = if decide (variant_matches w anchor c) then Matched c anchor
    else first_match w anchor vs.
Proof.
  unfold first_match. cbn [list_find].
  destruct (decide (variant_matches w anchor c)); [reflexivity |].
  destruct (list_find _ vs) as [[i c']|]; reflexivity.
Qed.

(** The loop over the variants: the first match is returned, the lookups
    are those of the variants tested, and the cleanup follows them. *)
Lemma matchLoop_run (anchor : Vector3 Z) (d : bool) (vs : list (list PatternBlock))
    (w : World) :
  matchLoop anchor d vs w
  = (Return (first_match w anchor vs),
     after_match d (first_match w anchor vs)
       (logged (GetBlock <$> (scanned w anchor vs ≫= probed w anchor)) w)).
Proof.
  revert w. induction vs as [|c vs IH]; intros w.
  - cbn. now rewrite logged_nil.
  - cbn [matchLoop]. unfold mbind at 1. unfold M_bind at 1.
    rewrite checkCombination_run, scanned_cons, first_match_cons, bind_cons.
    destruct (decide (variant_matches w anchor c)) as [Hc|Hc].
    + rewrite (bool_decide_eq_true_2 _ Hc).
      change ([] ≫= probed w anchor) with (@nil (Vector3 Z)). rewrite app_nil_r.
      destruct d; cbn [after_match].
      * unfold mbind, M_bind. now rewrite destroyBlocks_run.
      * reflexivity.
    + rewrite (bool_decide_eq_false_2 _ Hc).
      rewrite IH, logged_logged, fmap_app. reflexivity.
Qed.

(** The whole call, on any pattern, options and world. *)
Lemma matchBlocks_run (p : Pattern) (options : Options.t) (w : World) :
  let anchor := TriggerBlock.location (triggerBlock p) in
  let vs := searchOrder (pattern p) in
  matchBlocks p options w
  = (Return (first_match w anchor vs),
     after_match (Options.destroyBlocks options) (first_match w anchor vs)
       (logged (GetBlock <$> (scanned w anchor vs ≫= probed w anchor)) w)).
Proof.
  intros anchor vs. unfold matchBlocks, mbind, M_bind, lift.
  rewrite GenerationFacts.generateCombinations_searchOrder.
  apply matchLoop_run.
Qed.

End RunFacts.

(** ** The matcher's contract *)
Module MatcherTheorems.
Import Host BlockMatcher MatcherSpec.

Lemma first_match_cases (w : World) (anchor : Vector3 Z) (vs : list (list PatternBlock)) :
  (exists i c, first_match w anchor vs = Matched c anchor /\
     scanned w anchor vs = take (S i) vs /\
     vs !! i = Some c /\ variant_matches w anchor c /\
     forall j c', (j < i)%nat -> vs !! j = Some c' -> ~ variant_matches w anchor c')
  \/ (first_match w anchor vs = NoMatch /\ scanned w anchor vs = vs /\
      forall c, c ∈ vs -> ~ variant_matches w anchor c).
Proof.
  unfold first_match, scanned.
  destruct (list_find (variant_matches w anchor) vs) as [[i c]|] eqn:Hfind.
  - left. exists i, c. apply list_find_Some in Hfind as (Hi & Hc & Hbefore).
    repeat split; try done. intros j c' Hj Hc'. eapply Hbefore; eauto.
  - right. repeat split; try done.
    intros c Hc. eapply list_find_None in Hfind.
    rewrite Forall_forall in Hfind. now apply Hfind.
Qed.

Lemma lookups_of_run (d : bool) (r : MatchResult) (ls : list (Vector3 Z)) (w : World) :
  filter (fun e => is_mutation e = false) (calls (after_match d r (logged (GetBlock <$> ls) w)))
  = filter (fun e => is_mutation e = false) (calls w) ++ (GetBlock <$> ls).
Proof.
  assert (Hlook : filter (fun e => is_mutation e = false) (GetBlock <$> ls) = GetBlock <$> ls).
  { apply GenerationFacts.filter_Forall_id, Forall_forall.
    intros e He. apply list_elem_of_fmap in He as (l & -> & _). reflexivity. }
  assert (Hmut : forall ks : list (Vector3 Z),
             filter (fun e => is_mutation e = false) (ks ≫= removal) = []).
  { intros ks. induction ks as [|l ks IH]; [done |].
    rewrite bind_cons, filter_app, IH. reflexivity. }
  destruct r as [c center|], d; cbn [after_match calls destroyed logged];
    rewrite !filter_app, Hlook, ?Hmut, ?app_nil_r; reflexivity.
Qed.

(** The call in both of its outcomes, with the lookups it logged. *)
Lemma matchBlocks_outcomes (p : Pattern) (options : Options.t) (w : World) :
  let anchor := TriggerBlock.location (triggerBlock p) in
  let vs := searchOrder (pattern p) in
  exists w',
    filter (fun e => is_mutation e = false) (calls w')
    = filter (fun e => is_mutation e = false) (calls w)
      ++ (GetBlock <$> (scanned w anchor vs ≫= probed w anchor)) /\
    ((exists i c,
        vs !! i = Some c /\ scanned w anchor vs = take (S i) vs /\
        matchBlocks p options w = (Return (Matched c anchor), w'))
     \/ (scanned w anchor vs = vs /\ matchBlocks p options w = (Return NoMatch, w'))).
Proof.
  intros anchor vs.
  pose proof (RunFacts.matchBlocks_run p options w) as Hrun. cbv zeta in Hrun.
  fold anchor vs in Hrun.
  exists (after_match (Options.destroyBlocks options) (first_match w anchor vs)
            (logged (GetBlock <$> (scanned w anchor vs ≫= probed w anchor)) w)).
  split; [apply lookups_of_run |].
  rewrite Hrun.
  destruct (first_match_cases w anchor vs)
    as [(i & c & Hr & Hs & Hi & _)|(Hr & Hs & _)]; rewrite Hr.
  - left. exists i, c. split; [exact Hi |]. split; [exact Hs | reflexivity].
  - right. split; [exact Hs | reflexivity].
Qed.

(** C1. For every pattern, options and world, [matchBlocks] returns
    [Matched] with the first variant, in generation order, all of whose
    offsets satisfy the block lookup at the anchor, together with that
    variant's offsets in order and the anchor location as given; the
    lookups logged are those of the variants up to that one only; when no
    variant matches the result is [NoMatch]. *)
Theorem matchBlocks_first_matching_variant
    (p : Pattern) (options : Options.t) (w : World) :
  exists (vs : list (list PatternBlock)) (w' : World),
    generateCombinations (pattern p) = Return vs /\
    ((exists (i : nat) (c : list PatternBlock),
        vs !! i = Some c /\
        variant_matches w (TriggerBlock.location (triggerBlock p)) c /\
        (forall j c', (j < i)%nat -> vs !! j = Some c' ->
           ~ variant_matches w (TriggerBlock.location (triggerBlock p)) c') /\
        (exists k, reflections (pattern p) !! k = Some c /\
           forall j c', (j < k)%nat -> reflections (pattern p) !! j = Some c' ->
             ~ variant_matches w (TriggerBlock.location (triggerBlock p)) c') /\
        matchBlocks p options w
        = (Return (Matched c (TriggerBlock.location (triggerBlock p))), w') /\
        filter (fun e => is_mutation e = false) (calls w')
        = filter (fun e => is_mutation e = false) (calls w)
          ++ (GetBlock <$>
               (take (S i) vs ≫= probed w (TriggerBlock.location (triggerBlock p)))))
     \/
     ((forall c, c ∈ vs ->
         ~ variant_matches w (TriggerBlock.location (triggerBlock p)) c) /\
      matchBlocks p options w = (Return NoMatch, w'))).
Proof.
  pose proof (RunFacts.matchBlocks_run p options w) as Hrun. cbv zeta in Hrun.
  set (anchor := TriggerBlock.location (triggerBlock p)) in *.
  set (vs := searchOrder (pattern p)) in *.
  exists vs, (snd (matchBlocks p options w)). split.
  { apply GenerationFacts.generateCombinations_searchOrder. }
  destruct (first_match_cases w anchor vs)
    as [(i & c & Hr & Hs & Hi & Hc & Hbefore)|(Hr & Hs & Hnone)].
  - left. exists i, c. rewrite Hr, Hs in Hrun. rewrite Hrun. cbn [snd].
    split; [exact Hi |]. split; [exact Hc |]. split; [exact Hbefore |].
    split.
    { pose proof (GenerationFacts.list_find_dedup_first (variant_matches w anchor)
                    (reflections (pattern p))) as Hd.
      fold (searchOrder (pattern p)) in Hd. fold vs in Hd.
      rewrite (proj2 (list_find_Some _ vs i c)) in Hd
        by (split; [done | split; [done |]]; intros j c' Hj1 Hj2; eapply Hbefore; eauto).
      destruct (list_find _ (reflections (pattern p))) as [[k c0]|] eqn:Hk; [| done].
      cbn in Hd. injection Hd as <-.
      apply list_find_Some in Hk as (Hk1 & _ & Hk2).
      exists k. split; [done |]. intros j c' Hj1 Hj2. eapply Hk2; eauto. }
    split; [reflexivity |].
    apply lookups_of_run.
  - right. rewrite Hr in Hrun. rewrite Hrun. split; [exact Hnone | reflexivity].
Qed.

(** C2. Two patterns at which the generator departs from the candidates
    deduplicated by structural equality.

    For a single entry written with its block type first, the generator
    returns seven variants: its first is the caller's array, its second
    has the same offset and block type, and the two are kept apart because
    their texts list the properties in different orders; deduplication by
    offsets and block types leaves six.  A call on a world with nothing
    around the anchor looks the same location up twice.

    For the single offset [(1, 2, 3)], the third candidate of the
    generator, commented as the reflection across the Y axis, has offset
    [(1, -2, -3)], where the mirror across the Y axis gives [(1, -2, 3)];
    the generator returns 28 variants where the rotations combined with
    the three mirrors give 26, and the variant with offset [(3, -2, -1)]
    is among the 26 and not among the 28: on a world where that block
    stands, the call returns [NoMatch]. *)
Theorem generateCombinations_keeps_duplicate_and_misses_mirror :
  (exists vs,
     generateCombinations Samples.swappedPattern = Return vs /\
     length vs = 7%nat /\
     vs !! 0%nat = Some Samples.swappedPattern /\
     vs !! 1%nat = Some Samples.swappedCopy /\
     VariantSpec.same_entries Samples.swappedPattern Samples.swappedCopy /\
     ~ NoDup (VariantSpec.entries <$> vs) /\
     length (VariantSpec.variantEntries (VariantSpec.entries Samples.swappedPattern))
     = 6%nat /\
     forall options,
       calls (snd (matchBlocks
                     (mkPattern (TriggerBlock.mk TPose.diamond Samples.origin)
                                Samples.swappedPattern)
                     options Samples.emptyWorld))
       = GetBlock <$> [ mkVector3 0 (-1) 0; mkVector3 0 (-1) 0; mkVector3 0 1 0;
                        mkVector3 0 0 (-1); mkVector3 0 0 1; mkVector3 1 0 0;
                        mkVector3 (-1) 0 0 ]) /\
  (exists vs,
     generateCombinations Samples.skewPattern = Return vs /\
     reflections Samples.skewPattern !! 2%nat = Some [mkBlock (1, -2, -3) TPose.iron] /\
     VariantSpec.candidateEntries (VariantSpec.entries Samples.skewPattern) !! 2%nat
     = Some [((1, -2, 3), TPose.iron)] /\
     length vs = 28%nat /\
     length (VariantSpec.variantEntries (VariantSpec.entries Samples.skewPattern))
     = 26%nat /\
     [((3, -2, -1), TPose.iron)]
       ∈ VariantSpec.variantEntries (VariantSpec.entries Samples.skewPattern) /\
     ~ ([((3, -2, -1), TPose.iron)] ∈ (VariantSpec.entries <$> vs)) /\
     VariantSpec.stands (blocks Samples.skewWorld) (0, 0, 0) [((3, -2, -1), TPose.iron)] /\
     forall options,
       fst (matchBlocks
              (mkPattern (TriggerBlock.mk TPose.diamond Samples.origin) Samples.skewPattern)
              options Samples.skewWorld)
       = Return NoMatch).
Proof.
  split.
  - eexists. split; [vm_compute; reflexivity |].
    split; [reflexivity |]. split; [reflexivity |]. split; [reflexivity |].
    split; [reflexivity |].
    split; [apply (bool_decide_unpack _); vm_compute; exact I |].
    split; [vm_compute; reflexivity |].
    intros [[|]]; vm_compute; reflexivity.
  - eexists. split; [vm_compute; reflexivity |].
    split; [reflexivity |]. split; [reflexivity |]. split; [reflexivity |].
    split; [vm_compute; reflexivity |].
    split; [apply (bool_decide_unpack _); vm_compute; exact I |].
    split; [apply (bool_decide_unpack _); vm_compute; exact I |].
    split; [apply (bool_decide_unpack _); vm_compute; exact I |].
    intros [[|]]; vm_compute; reflexivity.
Qed.

(** C3. When a call with [destroyBlocks] on returns a match, the calls it
    adds to the host's log are its lookups followed, for the anchor and
    then for each offset of the matched variant in order, by: drops
    switched off, the destructive [setblock ... air destroy] of that one
    location, drops switched on.  Exactly those locations read as air
    afterwards, every other location is unchanged, and no item is dropped. *)
Theorem matchBlocks_destroys_each_block_between_toggles
    (p : Pattern) (w w' : World) (c : list PatternBlock) (center : Vector3 Z) :
  matchBlocks p (Options.mk true) w = (Return (Matched c center), w') ->
  exists lookups : list (Vector3 Z),
    calls w'
    = calls w ++ (GetBlock <$> lookups)
      ++ ((center :: (offsetLocation center <$> c)) ≫= fun l =>
            [ SetDoTileDrops false;
              RunCommand (setblock l "air" destroy);
              SetDoTileDrops true ]) /\
    (forall l, l ∈ center :: (offsetLocation center <$> c) ->
       blocks w' !! coords l = Some air) /\
    (forall k, (forall l, l ∈ center :: (offsetLocation center <$> c) -> coords l <> k) ->
       blocks w' !! k = blocks w !! k) /\
    drops w' = drops w.
Proof.
  intros Hrun. rewrite RunFacts.matchBlocks_run in Hrun. cbv zeta in Hrun.
  injection Hrun as Hr <-. rewrite Hr. cbn [after_match Options.destroyBlocks].
  eexists. split; [| split; [| split]].
  - cbn [calls destroyed logged]. rewrite <- app_assoc. reflexivity.
  - intros l Hl. cbn [blocks destroyed logged].
    now apply RunFacts.cleared_lookup_in.
  - intros k Hk. cbn [blocks destroyed logged].
    now apply RunFacts.cleared_lookup_out.
  - reflexivity.
Qed.

(** C4. A call with [destroyBlocks] off only looks blocks up: whatever it
    returns, the grid, the [doTileDrops] rule and the drops are as before,
    and every call it adds to the log is a [getBlock]. *)
Theorem matchBlocks_without_destroy_only_reads
    (p : Pattern) (w : World) :
  exists (r : MatchResult) (lookups : list (Vector3 Z)),
    matchBlocks p (Options.mk false) w
    = (Return r,
       mkWorld (blocks w) (doTileDrops w) (drops w) (calls w ++ (GetBlock <$> lookups))).
Proof.
  rewrite RunFacts.matchBlocks_run. cbv zeta. cbn [Options.destroyBlocks].
  eexists _, _. f_equal.
  destruct (first_match _ _ _); reflexivity.
Qed.

Lemma probes_cases (w : World) (anchor : Vector3 Z) (c : list PatternBlock) :
  (probes w anchor c <= length c)%nat /\
  ((variant_matches w anchor c /\ probes w anchor c = length c)
   \/ (~ variant_matches w anchor c /\
       exists b, c !! pred (probes w anchor c) = Some b /\
         (0 < probes w anchor c)%nat /\ ~ block_matches w anchor b /\
         forall j b', (j < pred (probes w anchor c))%nat -> c !! j = Some b' ->
           block_matches w anchor b')).
Proof.
  unfold probes.
  destruct (list_find (fun b => ~ block_matches w anchor b) c) as [[i b]|] eqn:Hfind.
  - apply list_find_Some in Hfind as (Hi & Hb & Hbefore).
    split; [apply lookup_lt_Some in Hi; lia |].
    right. split.
    + intros Hall. apply Hb. unfold variant_matches in Hall.
      rewrite Forall_forall in Hall. apply Hall. eapply list_elem_of_lookup_2, Hi.
    + exists b. cbn [pred]. repeat split; [done | lia | done |].
      intros j b' Hj Hb'. destruct (decide (block_matches w anchor b')); [done |].
      exfalso. eapply Hbefore; eauto.
  - split; [done |]. left. split; [| done].
    apply list_find_None in Hfind. unfold variant_matches.
    eapply Forall_impl; [exact Hfind |].
    intros b Hb. cbn in Hb. now destruct (decide (block_matches w anchor b)).
Qed.

(** C5. Checking one variant looks up its offsets in order and stops at the
    first whose block is absent or of another type: a failing variant costs
    at most as many lookups as it has offsets, its later offsets are never
    looked up, and a matching variant costs exactly one lookup per offset.
    Over the whole call the lookups are those of the variants up to and
    including the first that matches; no later variant is scanned. *)
Theorem checkCombination_short_circuits
    (anchor : Vector3 Z) (c : list PatternBlock)
    (p : Pattern) (options : Options.t) (w : World) :
  (exists (ok : bool) (n : nat),
     checkCombination anchor c w
     = (Return ok,
        mkWorld (blocks w) (doTileDrops w) (drops w)
                (calls w ++ (GetBlock <$> take n (offsetLocation anchor <$> c)))) /\
     probed w anchor c = take n (offsetLocation anchor <$> c) /\
     (n <= length c)%nat /\
     (ok = true -> n = length c /\ variant_matches w anchor c) /\
     (ok = false ->
        exists b, c !! pred n = Some b /\ (0 < n)%nat /\ ~ block_matches w anchor b /\
          forall j b', (j < pred n)%nat -> c !! j = Some b' -> block_matches w anchor b'))
  /\
  (exists (vs : list (list PatternBlock)) (k : nat) (r : MatchResult) (w' : World),
     generateCombinations (pattern p) = Return vs /\
     (k <= length vs)%nat /\
     matchBlocks p options w = (Return r, w') /\
     filter (fun e => is_mutation e = false) (calls w')
     = filter (fun e => is_mutation e = false) (calls w)
       ++ (GetBlock <$>
            (take k vs ≫= probed w (TriggerBlock.location (triggerBlock p)))) /\
     (forall c' center, r = Matched c' center -> (0 < k)%nat /\ vs !! pred k = Some c') /\
     (r = NoMatch -> k = length vs)).
Proof.
  split.
  - exists (bool_decide (variant_matches w anchor c)), (probes w anchor c).
    destruct (probes_cases w anchor c) as [Hle [[Hall Hn]|[Hnot Hb]]].
    + rewrite RunFacts.checkCombination_run.
      split; [reflexivity |]. split; [reflexivity |]. split; [exact Hle |].
      split; [done |]. intros Hf. now apply bool_decide_eq_false in Hf.
    + rewrite RunFacts.checkCombination_run.
      split; [reflexivity |]. split; [reflexivity |]. split; [exact Hle |].
      split; [| intros _; exact Hb]. intros Ht. now apply bool_decide_eq_true in Ht.
  - destruct (matchBlocks_outcomes p options w)
      as (w' & Hcalls & [(i & c0 & Hi & Hs & Hrun)|(Hs & Hrun)]); rewrite Hs in Hcalls.
    + exists (searchOrder (pattern p)), (S i),
        (Matched c0 (TriggerBlock.location (triggerBlock p))), w'.
      split; [apply GenerationFacts.generateCombinations_searchOrder |].
      split; [apply lookup_lt_Some in Hi; lia |].
      split; [exact Hrun |]. split; [exact Hcalls |]. split.
      * intros c' center [= <- <-]. split; [lia | exact Hi].
      * discriminate.
    + exists (searchOrder (pattern p)), (length (searchOrder (pattern p))), NoMatch, w'.
      split; [apply GenerationFacts.generateCombinations_searchOrder |].
      split; [lia |].
      split; [exact Hrun |]. split; [now rewrite firstn_all |]. split.
      * discriminate.
      * reflexivity.
Qed.

(** C6. An empty offset list raises nothing: its forty candidates are all
    the empty variant, they deduplicate to that one variant, and the call
    returns [Matched] on it with the anchor location and the empty
    combination, without a single lookup. *)
Theorem matchBlocks_empty_pattern
    (trigger : TriggerBlock.t) (options : Options.t) (w : World) :
  reflections [] = replicate 40 [] /\
  generateCombinations [] = Return [[]] /\
  exists w',
    matchBlocks (mkPattern trigger []) options w
    = (Return (Matched [] (TriggerBlock.location trigger)), w') /\
    filter (fun e => is_mutation e = false) (calls w')
    = filter (fun e => is_mutation e = false) (calls w).
Proof.
  split; [reflexivity |].
  split; [rewrite GenerationFacts.generateCombinations_searchOrder; reflexivity |].
  rewrite RunFacts.matchBlocks_run. cbv zeta.
  cbn [pattern triggerBlock].
  change (searchOrder []) with [@nil PatternBlock].
  eexists. split; [reflexivity |].
  rewrite lookups_of_run. cbn. apply app_nil_r.
Qed.

(** C7. A lookup that finds no block is a mismatch of that offset and
    nothing more: the variant it belongs to fails with [false], and the
    call returns normally, with a result other than a match on that
    variant. *)
Theorem absent_block_fails_the_variant
    (p : Pattern) (options : Options.t) (w : World)
    (c : list PatternBlock) (b : PatternBlock) :
  b ∈ c ->
  blocks w !! coords (offsetLocation (TriggerBlock.location (triggerBlock p)) b) = None ->
  fst (checkCombination (TriggerBlock.location (triggerBlock p)) c w) = Return false /\
  exists r w',
    matchBlocks p options w = (Return r, w') /\
    r <> Matched c (TriggerBlock.location (triggerBlock p)).
Proof.
  intros Hb Habsent.
  set (anchor := TriggerBlock.location (triggerBlock p)) in *.
  assert (Hfail : ~ variant_matches w anchor c).
  { intros Hall. unfold variant_matches in Hall. rewrite Forall_forall in Hall.
    specialize (Hall b Hb). unfold block_matches in Hall. congruence. }
  split.
  - rewrite RunFacts.checkCombination_run. cbn [fst].
    now rewrite bool_decide_eq_false_2.
  - rewrite RunFacts.matchBlocks_run. cbv zeta. fold anchor.
    eexists _, _. split; [reflexivity |].
    destruct (first_match_cases w anchor (searchOrder (pattern p)))
      as [(i & c0 & Hr & _ & _ & Hc0 & _)|(Hr & _)]; rewrite Hr; [| discriminate].
    intros [= ->]. done.
Qed.

(** C10. Each removal ends by setting [doTileDrops] to [true], whatever it
    was: a call with [destroyBlocks] on that returns a match leaves the game
    rule on, also when it was off before the call. *)
Theorem matchBlocks_leaves_doTileDrops_on
    (p : Pattern) (w w' : World) (c : list PatternBlock) (center : Vector3 Z) :
  matchBlocks p (Options.mk true) w = (Return (Matched c center), w') ->
  doTileDrops w' = true /\
  forall (l : Vector3 Z) (w0 : World), doTileDrops (snd (destroyBlock l w0)) = true.
Proof.
  intros Hrun. rewrite RunFacts.matchBlocks_run in Hrun. cbv zeta in Hrun.
  injection Hrun as Hr <-. rewrite Hr. split; [reflexivity |].
  intros l w0. now rewrite RunFacts.destroyBlock_run.
Qed.

(** *** The contract on the handler's pattern *)

(** In the world where the figure stands a quarter turn away, the call
    matches the turned variant and clears its five blocks. *)
Lemma builtWorld_run :
  matchBlocks TPose.tPosePattern (Options.mk true) TPose.builtWorld
  = (Return (Matched TPose.turnedVariant TPose.anchor),
     snd (matchBlocks TPose.tPosePattern (Options.mk true) TPose.builtWorld)).
Proof. vm_compute. reflexivity. Qed.

Lemma matchBlocks_destroys_each_block_between_toggles_witness :
  matchBlocks TPose.tPosePattern (Options.mk true) TPose.builtWorld
  = (Return (Matched TPose.turnedVariant TPose.anchor),
     snd (matchBlocks TPose.tPosePattern (Options.mk true) TPose.builtWorld)) /\
  exists lookups : list (Vector3 Z),
    calls (snd (matchBlocks TPose.tPosePattern (Options.mk true) TPose.builtWorld))
    = calls TPose.builtWorld ++ (GetBlock <$> lookups)
      ++ ((TPose.anchor :: (offsetLocation TPose.anchor <$> TPose.turnedVariant)) ≫= fun l =>
            [ SetDoTileDrops false;
              RunCommand (setblock l "air" destroy);
              SetDoTileDrops true ]) /\
    (forall l, l ∈ TPose.anchor :: (offsetLocation TPose.anchor <$> TPose.turnedVariant) ->
       blocks (snd (matchBlocks TPose.tPosePattern (Options.mk true) TPose.builtWorld))
         !! coords l = Some air) /\
    (forall k,
       (forall l, l ∈ TPose.anchor :: (offsetLocation TPose.anchor <$> TPose.turnedVariant) ->
          coords l <> k) ->
       blocks (snd (matchBlocks TPose.tPosePattern (Options.mk true) TPose.builtWorld)) !! k
       = blocks TPose.builtWorld !! k) /\
    drops (snd (matchBlocks TPose.tPosePattern (Options.mk true) TPose.builtWorld))
    = drops TPose.builtWorld.
Proof.
  split; [vm_compute; reflexivity |].
  apply (matchBlocks_destroys_each_block_between_toggles
           TPose.tPosePattern TPose.builtWorld _ TPose.turnedVariant TPose.anchor).
  vm_compute. reflexivity.
Defined.

Lemma absent_block_fails_the_variant_witness :
  fst (checkCombination (TriggerBlock.location (triggerBlock TPose.tPosePattern))
         (pattern TPose.tPosePattern) TPose.bareWorld) = Return false /\
  exists r w',
    matchBlocks TPose.tPosePattern (Options.mk true) TPose.bareWorld = (Return r, w') /\
    r <> Matched (pattern TPose.tPosePattern)
           (TriggerBlock.location (triggerBlock TPose.tPosePattern)).
Proof.
  apply (absent_block_fails_the_variant TPose.tPosePattern (Options.mk true) TPose.bareWorld
           (pattern TPose.tPosePattern) (mkBlock (0, -1, 0) TPose.iron)).
  - vm_compute. left.
  - vm_compute. reflexivity.
Defined.

Lemma matchBlocks_leaves_doTileDrops_on_witness :
  doTileDrops TPose.builtWorld = false /\
  doTileDrops (snd (matchBlocks TPose.tPosePattern (Options.mk true) TPose.builtWorld)) = true /\
  forall (l : Vector3 Z) (w0 : World), doTileDrops (snd (destroyBlock l w0)) = true.
Proof.
  split; [reflexivity |].
  apply (matchBlocks_leaves_doTileDrops_on
           TPose.tPosePattern TPose.builtWorld _ TPose.turnedVariant TPose.anchor).
  vm_compute. reflexivity.
Defined.

End MatcherTheorems.

(** ** Binary64 rounding never turns a positive value at or above the least
       exponent into zero *)
Module NumberFacts.
Import Number.

#[local] Open Scope Z_scope.

Lemma shr_1_m (mrs : shr_record) :
  0 <= shr_m mrs -> shr_m (shr_1 mrs) = shr_m mrs / 2.
Proof.
  destruct mrs as [m r s]. cbn [shr_m]. intros Hm.
  destruct m as [|[p|p|]|p]; cbn [shr_1 shr_m]; [reflexivity | | | reflexivity | lia].
  - apply Z.div_unique with 1; lia.
  - apply Z.div_unique with 0; lia.
Qed.

Lemma iter_shr_1_m (p : positive) (mrs : shr_record) :
  0 <= shr_m mrs ->
  shr_m (SpecFloat.iter_pos shr_1 p mrs) = shr_m mrs / 2 ^ Zpos p.
Proof.
  revert mrs. induction p as [p IH|p IH|]; intros mrs Hm; cbn [SpecFloat.iter_pos].
  - assert (H1 : 0 <= shr_m (shr_1 mrs)) by (rewrite shr_1_m by done; apply Z.div_pos; lia).
    assert (H2 : 0 <= shr_m (SpecFloat.iter_pos shr_1 p (shr_1 mrs)))
      by (rewrite IH by done; apply Z.div_pos; lia).
    rewrite IH, IH, shr_1_m by done.
    rewrite !Z.div_div by lia. f_equal.
    rewrite Pos2Z.inj_xI, Z.pow_add_r, Z.pow_mul_r, Z.pow_1_r by lia.
    change (2 ^ 2) with 4.
    replace (2 ^ Z.pos p * 2 ^ Z.pos p) with ((2 ^ Z.pos p) ^ 2) by (rewrite Z.pow_2_r; lia).
    rewrite <- Z.pow_mul_r, (Z.mul_comm (Z.pos p) 2), Z.pow_mul_r by lia.
    change (2 ^ 2) with 4. lia.
  - assert (H2 : 0 <= shr_m (SpecFloat.iter_pos shr_1 p mrs))
      by (rewrite IH by done; apply Z.div_pos; lia).
    rewrite IH, IH by done. rewrite Z.div_div by lia. f_equal.
    rewrite Pos2Z.inj_xO, <- Z.pow_add_r by lia. f_equal. lia.
  - rewrite shr_1_m by done. reflexivity.
Qed.

(** [d] binary digits hold at least [2 ^ (d - 1)]. *)
Lemma digits2_pos_lower (p : positive) : 2 ^ (Zpos (digits2_pos p) - 1) <= Zpos p.
Proof.
  induction p as [p IH|p IH|]; cbn [digits2_pos]; [| | reflexivity].
  - rewrite Pos2Z.inj_succ. change (Zpos p~1) with (2 * Zpos p + 1).
    replace (Z.succ (Zpos (digits2_pos p)) - 1) with (Z.succ (Zpos (digits2_pos p) - 1)) by lia.
    rewrite Z.pow_succ_r by lia.
    generalize dependent (2 ^ (Zpos (digits2_pos p) - 1)). intros k IH. lia.
  - rewrite Pos2Z.inj_succ. change (Zpos p~0) with (2 * Zpos p).
    replace (Z.succ (Zpos (digits2_pos p)) - 1) with (Z.succ (Zpos (digits2_pos p) - 1)) by lia.
    rewrite Z.pow_succ_r by lia.
    generalize dependent (2 ^ (Zpos (digits2_pos p) - 1)). intros k IH. lia.
Qed.

Lemma shr_record_of_loc_m (m : Z) (l : location) : shr_m (shr_record_of_loc m l) = m.
Proof. destruct l as [|[]]; reflexivity. Qed.

(** The exponent after a shift is never below the least exponent. *)
Lemma shr_fexp_exponent (m e : Z) (l : location) :
  -1074 <= snd (shr_fexp prec emax m e l).
Proof.
  unfold shr_fexp, shr, fexp, SpecFloat.emin, prec, emax.
  destruct (Z.max (Zdigits2 m + e - 53) (3 - 1024 - 53) - e) eqn:Hn; cbn [snd]; lia.
Qed.

(** A positive mantissa at or above the least exponent keeps a positive
    mantissa: the shift drops fewer digits than it has. *)
Lemma shr_fexp_positive (m e : Z) (l : location) :
  0 < m -> -1074 <= e -> 0 < shr_m (fst (shr_fexp prec emax m e l)).
Proof.
  intros Hm He. destruct m as [|p|p]; try lia.
  unfold shr_fexp, shr, fexp, SpecFloat.emin, prec, emax. cbn [Zdigits2].
  pose proof (digits2_pos_lower p) as Hd.
  destruct (Z.max (Zpos (digits2_pos p) + e - 53) (3 - 1024 - 53) - e) as [|q|q] eqn:Hn;
    cbn [fst]; rewrite ?shr_record_of_loc_m; try lia.
  rewrite iter_shr_1_m by (rewrite shr_record_of_loc_m; lia).
  rewrite shr_record_of_loc_m.
  assert (Hq : 2 ^ Zpos q <= 2 ^ (Zpos (digits2_pos p) - 1))
    by (apply Z.pow_le_mono_r; lia).
  assert (Hp : 0 < 2 ^ Zpos q) by (apply Z.pow_pos_nonneg; lia).
  assert (1 <= Zpos p / 2 ^ Zpos q) by (apply Z.div_le_lower_bound; lia).
  lia.
Qed.

Lemma round_nearest_even_positive (m : Z) (l : location) :
  0 < m -> 0 < round_nearest_even m l.
Proof.
  intros Hm. destruct l as [|[]]; cbn [round_nearest_even]; try lia.
  destruct (Z.even m); lia.
Qed.

(** What rounding returns: the sign it was given, and an exponent at or
    above the least one. *)
Lemma binary_round_aux_shape (sx : bool) (m e : Z) (l : location) :
  match binary_round_aux prec emax sx m e l with
  | S754_zero s => s = sx
  | S754_infinity s => s = sx
  | S754_nan => True
  | S754_finite s _ e' => s = sx /\ -1074 <= e'
  end.
Proof.
  unfold binary_round_aux.
  destruct (shr_fexp prec emax m e l) as [mrs' e'].
  pose proof (shr_fexp_exponent
                (round_nearest_even (shr_m mrs') (loc_of_shr_record mrs')) e' loc_Exact) as He.
  destruct (shr_fexp prec emax _ e' loc_Exact) as [mrs'' e''].
  cbn [snd] in He.
  destruct (shr_m mrs'') as [|p|p]; [done | | done].
  destruct (e'' <=? emax - prec); done.
Qed.

Lemma binary_round_aux_nonzero (sx : bool) (m e : Z) (l : location) (s : bool) :
  0 < m -> -1074 <= e -> binary_round_aux prec emax sx m e l <> S754_zero s.
Proof.
  intros Hm He. unfold binary_round_aux.
  pose proof (shr_fexp_positive m e l Hm He) as H1.
  pose proof (shr_fexp_exponent m e l) as E1.
  destruct (shr_fexp prec emax m e l) as [mrs' e']. cbn [fst snd] in H1, E1.
  pose proof (shr_fexp_positive _ e' loc_Exact
                (round_nearest_even_positive _ (loc_of_shr_record mrs') H1) E1) as H2.
  destruct (shr_fexp prec emax _ e' loc_Exact) as [mrs'' e'']. cbn [fst] in H2.
  destruct (shr_m mrs'') as [|p|p]; [lia | | lia].
  destruct (e'' <=? emax - prec); discriminate.
Qed.

Lemma shl_align_exponent (m : positive) (e e' : Z) :
  -1074 <= e -> -1074 <= e' -> -1074 <= snd (shl_align m e e').
Proof.
  intros He He'. unfold shl_align. destruct (e' - e); cbn [snd]; lia.
Qed.

Ltac squarish_signs :=
  repeat match goal with
         | H : _ /\ _ |- _ => destruct H
         | H : ?sign = false |- _ => subst sign
         end.

Lemma square_squarish (a : number) : squarish (square a).
Proof.
  unfold square, mul. destruct a as [[]|[]| |sign m e]; cbn [SFmul xorb squarish]; try done.
  pose proof (binary_round_aux_shape (xorb sign sign) (Zpos (m * m)) (e + e) loc_Exact) as H.
  replace (xorb sign sign) with false in * by now destruct sign.
  exact H.
Qed.

(** The sum of two finite positive values is a rounding of a positive
    mantissa. *)
Lemma add_finite_finite (ma mb : positive) (ea eb : Z) :
  -1074 <= ea -> -1074 <= eb ->
  exists (q : positive) (e : Z),
    -1074 <= e /\
    add (S754_finite false ma ea) (S754_finite false mb eb)
    = binary_round_aux prec emax false (Zpos q) e loc_Exact.
Proof.
  intros Ha Hb. unfold add. cbn [SFadd cond_Zopp].
  generalize (fst (shl_align ma ea (Z.min ea eb))) (fst (shl_align mb eb (Z.min ea eb))).
  intros a b. change (Zpos a + Zpos b) with (Zpos (a + b)).
  unfold binary_normalize, binary_round.
  match goal with
  | |- context [shl_align ?q ?e ?e'] =>
      pose proof (shl_align_exponent q e e') as He;
      destruct (shl_align q e e') as [mz ez]
  end.
  exists mz, ez. split; [| reflexivity].
  cbn [snd] in He. apply He; [lia |].
  unfold fexp, SpecFloat.emin, prec, emax. lia.
Qed.

Lemma add_squarish (a b : number) : squarish a -> squarish b -> squarish (add a b).
Proof.
  destruct a as [sa|sa| |sa ma ea], b as [sb|sb| |sb mb eb];
    cbn [squarish]; intros Ha Hb; squarish_signs; try done.
  destruct (add_finite_finite ma mb ea eb) as (q & e & He & ->); [done | done |].
  apply binary_round_aux_shape.
Qed.

(** A sum of such values is zero only when both are. *)
Lemma add_zero (a b : number) :
  squarish a -> squarish b -> is_zero (add a b) -> is_zero a /\ is_zero b.
Proof.
  unfold is_zero.
  destruct a as [sa|sa| |sa ma ea], b as [sb|sb| |sb mb eb];
    cbn [squarish]; intros Ha Hb; squarish_signs; intros [s Hs];
    try discriminate Hs; eauto.
  exfalso.
  destruct (add_finite_finite ma mb ea eb) as (q & e & He & Heq); [done | done |].
  rewrite Heq in Hs. revert Hs. apply binary_round_aux_nonzero; lia.
Qed.

(** The square root of such a value is zero only when the value is. *)
Lemma sqrt_zero (a : number) : squarish a -> is_zero (sqrt a) -> is_zero a.
Proof.
  unfold is_zero.
  destruct a as [sa|sa| |sa m e]; cbn [squarish]; intros Ha [s Hs];
    [eauto | subst sa; discriminate Hs | discriminate Hs |].
  exfalso. destruct Ha as [-> He]. revert Hs. unfold sqrt. cbn [SFsqrt].
  unfold SFsqrt_core_binary. cbn [Zdigits2].
  set (e' := Z.min _ (Z.div2 e)).
  assert (He' : -1074 <= e' /\ 2 * e' <= e).
  { subst e'. unfold fexp, SpecFloat.emin, prec, emax. rewrite !Z.div2_div.
    pose proof (Z.div_mod e 2 ltac:(lia)) as Hdiv.
    pose proof (Z.mod_pos_bound e 2 ltac:(lia)) as Hmod.
    generalize dependent (e / 2). generalize ((Zpos (digits2_pos m) + e + 1) / 2).
    intros k1 k2 Hdiv. lia. }
  set (m' := match e - 2 * e' with Zpos _ => _ | Z0 => _ | Zneg _ => _ end).
  assert (Hm' : 0 < m').
  { subst m'. destruct (e - 2 * e') as [|k|k] eqn:Hk; [lia | | lia].
    rewrite Z.shiftl_mul_pow2 by lia.
    apply Z.mul_pos_pos; [lia | apply Z.pow_pos_nonneg; lia]. }
  pose proof (Z.sqrtrem_spec m' ltac:(lia)) as Hsq.
  destruct (Z.sqrtrem m') as [q r].
  apply binary_round_aux_nonzero; [nia | lia].
Qed.

End NumberFacts.

(** ** The [Vector3] arithmetic *)
Module VectorTheorems.
Import Number Vec3.

(** [s === 0] holds of the two zeros and of nothing else. *)
Lemma strict_eq_zero (s : number) :
  strict_eq s zero = true <-> exists sign, s = S754_zero sign.
Proof.
  split.
  - destruct s as [sign|[]| |[] m e]; cbn; intros H; try discriminate H. eauto.
  - intros [sign ->]. reflexivity.
Qed.

Lemma strict_neq_zero (s : number) :
  strict_neq s zero = false <-> exists sign, s = S754_zero sign.
Proof.
  unfold strict_neq. rewrite negb_false_iff. apply strict_eq_zero.
Qed.

Lemma divide_throws (v : Vector3 number) (s : number) :
  (exists e, divide v s = Throw e) <-> exists sign, s = S754_zero sign.
Proof.
  rewrite <- strict_neq_zero. unfold divide.
  destruct (strict_neq s zero); split; intros H; try done; eauto.
  now destruct H.
Qed.

Lemma normalize_throws (v : Vector3 number) :
  (exists e, normalize v = Throw e) <-> exists sign, magnitude v = S754_zero sign.
Proof.
  rewrite <- strict_neq_zero. unfold normalize, divide.
  destruct (strict_neq (magnitude v) zero); split; intros H; try done; eauto.
  now destruct H.
Qed.

(** C8. [divide(v, s)] throws exactly when [s] is zero, [normalize(v)]
    throws exactly when the magnitude of [v] is zero (no tolerance: only
    the two zeros count), each with its own message, and no other method
    of the class throws. *)
Theorem only_divide_and_normalize_throw
    (Number_toString : number -> string) (v : Vector3 number) (s : number) :
  ((exists e, divide v s = Throw e) <-> (exists sign, s = S754_zero sign)) /\
  (forall e, divide v s = Throw e -> e = Error "Cannot divide by zero") /\
  ((exists e, normalize v = Throw e) <-> (exists sign, magnitude v = S754_zero sign)) /\
  (forall e, normalize v = Throw e -> e = Error "Cannot normalize a zero vector") /\
  (forall m e, call Number_toString v m = Throw e ->
     (exists s' sign, m = Divide s' /\ s' = S754_zero sign) \/
     (m = Normalize /\ exists sign, magnitude v = S754_zero sign)).
Proof.
  split; [apply divide_throws |].
  split.
  { unfold divide. destruct (strict_neq s zero); congruence. }
  split; [apply normalize_throws |].
  split.
  { unfold normalize, divide.
    destruct (strict_neq (magnitude v) zero); congruence. }
  intros m e Hm. destruct m as [o|o|o|k|k| | |o|o|o|]; cbn in Hm; try discriminate.
  - left. destruct (divide v k) as [r|e'] eqn:Hd; [discriminate |].
    destruct (proj1 (divide_throws v k)) as [sign ->]; eauto.
  - right. split; [reflexivity |].
    destruct (normalize v) as [r|e'] eqn:Hn; [discriminate |].
    apply normalize_throws. eauto.
Qed.

(** [new Vector3(3, 4, 0).magnitude()] is [5]. *)
Example magnitude_3_4_0 :
  magnitude (mkVector3 (S754_finite false 6755399441055744 (-51))
                       (S754_finite false 4503599627370496 (-50)) zero)
  = S754_finite false 5629499534213120 (-50).
Proof. vm_compute. reflexivity. Qed.

(** C9, as stated, fails: [new Vector3(1e-200, 0, 0).magnitude()] is zero
    although the [x] component is not. *)
Lemma magnitude_zero_iff_components_zero_fails :
  ~ (forall v : Vector3 number,
       strict_eq (magnitude v) zero = true <->
       strict_eq (x v) zero = true /\ strict_eq (y v) zero = true
       /\ strict_eq (z v) zero = true).
Proof.
  intros H. destruct (H (mkVector3 Number.tiny zero zero)) as [Hmag _].
  assert (Hzero : strict_eq (magnitude (mkVector3 Number.tiny zero zero)) zero = true)
    by (vm_compute; reflexivity).
  destruct (Hmag Hzero) as [Hx _]. vm_compute in Hx. discriminate.
Qed.

Lemma is_zero_strict_eq (a : number) : is_zero a <-> strict_eq a zero = true.
Proof. symmetry. apply strict_eq_zero. Qed.

Lemma magnitude_is_zero (v : Vector3 number) :
  is_zero (magnitude v) <->
  is_zero (square (x v)) /\ is_zero (square (y v)) /\ is_zero (square (z v)).
Proof.
  unfold magnitude. split.
  - intros Hmag.
    pose proof (NumberFacts.square_squarish (x v)) as Sx.
    pose proof (NumberFacts.square_squarish (y v)) as Sy.
    pose proof (NumberFacts.square_squarish (z v)) as Sz.
    pose proof (NumberFacts.add_squarish _ _ Sx Sy) as Sxy.
    apply NumberFacts.sqrt_zero in Hmag; [| now apply NumberFacts.add_squarish].
    apply NumberFacts.add_zero in Hmag as [Hxy Hz]; [| done | done].
    apply NumberFacts.add_zero in Hxy as [Hx Hy]; done.
  - intros ([sx ->] & [sy ->] & [sz ->]). destruct sx, sy, sz; eexists; reflexivity.
Qed.

(** C9, amended. The magnitude is zero exactly when the three squares
    [x ** 2], [y ** 2] and [z ** 2] are zero as binary64 values; that is
    so whenever the three components are zero. *)
Theorem magnitude_zero_iff_squares_zero (v : Vector3 number) :
  (strict_eq (magnitude v) zero = true <->
   strict_eq (square (x v)) zero = true /\ strict_eq (square (y v)) zero = true
   /\ strict_eq (square (z v)) zero = true)
  /\
  (strict_eq (x v) zero = true /\ strict_eq (y v) zero = true
   /\ strict_eq (z v) zero = true ->
   strict_eq (magnitude v) zero = true).
Proof.
  rewrite <- !is_zero_strict_eq. split; [apply magnitude_is_zero |].
  intros ([sx Hx] & [sy Hy] & [sz Hz]). apply magnitude_is_zero.
  rewrite Hx, Hy, Hz. repeat split; eexists; reflexivity.
Qed.

(** [1e-200] is such a component: a binary64 value that is not zero, with
    a square that is. *)
Example square_tiny :
  valid_binary prec emax Number.tiny = true /\
  strict_eq Number.tiny zero = false /\ strict_eq (square Number.tiny) zero = true.
Proof. repeat split; vm_compute; reflexivity. Qed.

End VectorTheorems.

(** ** More on the variants *)
Module VariantTheorems.
Import Host BlockMatcher MatcherSpec VariantSpec OffsetSpec.

Lemma candidates_elem (p c : list PatternBlock) :
  c ∈ candidates p <->
  exists rot refl, rot ∈ rotationTransforms /\ refl ∈ reflectionTransforms /\
    c = mapOffset (fun o => refl (rot o)) p.
Proof.
  unfold candidates. rewrite list_elem_of_bind. split.
  - intros (rot & Hc & Hrot). apply list_elem_of_bind in Hc as (refl & Hc & Hrefl).
    apply list_elem_of_singleton in Hc. eauto 6.
  - intros (rot & refl & Hrot & Hrefl & ->). exists rot. split; [| done].
    apply list_elem_of_bind. exists refl. split; [| done]. now apply list_elem_of_singleton.
Qed.

(** Each of the ten rotations and of the four reflections keeps the
    distance between any two offsets, and keeps the origin. *)
Lemma rotationTransforms_rigid :
  Forall (fun f => (forall o1 o2, sqdist (f o1) (f o2) = sqdist o1 o2)
                   /\ f (0, 0, 0) = (0, 0, 0)) rotationTransforms.
Proof.
  unfold rotationTransforms.
  repeat (apply Forall_cons; split;
          [split; [intros [[a1 b1] c1] [[a2 b2] c2]; unfold sqdist; ring | reflexivity] |]).
  apply Forall_nil_2.
Qed.

Lemma reflectionTransforms_rigid :
  Forall (fun f => (forall o1 o2, sqdist (f o1) (f o2) = sqdist o1 o2)
                   /\ f (0, 0, 0) = (0, 0, 0)) reflectionTransforms.
Proof.
  unfold reflectionTransforms.
  repeat (apply Forall_cons; split;
          [split; [intros [[a1 b1] c1] [[a2 b2] c2]; unfold sqdist; ring | reflexivity] |]).
  apply Forall_nil_2.
Qed.

Lemma candidate_transform (p c : list PatternBlock) :
  c ∈ candidates p -> exists f, rigid f /\ c = mapOffset f p.
Proof.
  intros (rot & refl & Hrot & Hrefl & ->)%candidates_elem.
  pose proof rotationTransforms_rigid as Hr. rewrite Forall_forall in Hr.
  pose proof reflectionTransforms_rigid as Hm. rewrite Forall_forall in Hm.
  destruct (Hr rot Hrot) as [Hr1 Hr2], (Hm refl Hrefl) as [Hm1 Hm2].
  exists (fun o => refl (rot o)). split; [split |]; [| | reflexivity].
  - intros o1 o2. now rewrite Hm1, Hr1.
  - now rewrite Hr2, Hm2.
Qed.

(** Every candidate of the search order has the entries of the pattern,
    in order, with the offsets moved by one rigid transform. *)
Lemma searchOrder_transform (p c : list PatternBlock) :
  c ∈ searchOrder p ->
  exists f, rigid f /\
    Forall2 (fun b q => offset b = f (offset q) /\ blockType b = blockType q) c p.
Proof.
  intros [->|Hc]%GenerationFacts.searchOrder_elem.
  - exists (fun o => o). split; [split; [intros; reflexivity | reflexivity] |].
    apply Forall_Forall2_diag, Forall_forall. intros b _. split; reflexivity.
  - apply candidate_transform in Hc as (f & Hf & ->). exists f. split; [exact Hf |].
    unfold mapOffset. change (map ?g p) with (g <$> p).
    apply Forall2_fmap_l, Forall_Forall2_diag, Forall_forall.
    intros b _. split; reflexivity.
Qed.

Lemma searchOrder_keeps_block_types (p : list PatternBlock) :
  Forall (fun c => length c = length p /\ blockType <$> c = blockType <$> p)
         (searchOrder p).
Proof.
  apply Forall_forall. intros c (f & _ & Hall)%searchOrder_transform.
  split; [now apply Forall2_length in Hall |].
  induction Hall as [|b q c p [_ Ht] _ IH]; [done |]. csimpl. now rewrite Ht, IH.
Qed.

(** X1. The generator never throws: every text it wrote parses back.  It
    returns at least one and at most forty variants, no two of them the
    same (entry by entry, property order included), and every variant has
    the entries of the pattern in the same order with the same block
    types: only offsets change, entries are neither added, dropped nor
    reordered. *)
Theorem generateCombinations_keeps_block_types (p : list PatternBlock) :
  exists vs,
    generateCombinations p = Return vs /\
    (1 <= length vs <= 40)%nat /\
    NoDup vs /\
    Forall (fun c => length c = length p /\ blockType <$> c = blockType <$> p) vs.
Proof.
  exists (searchOrder p).
  split; [apply GenerationFacts.generateCombinations_searchOrder |].
  split.
  { split; [| apply GenerationFacts.searchOrder_length].
    pose proof (GenerationFacts.searchOrder_head p) as Hhead.
    destruct (searchOrder p); [discriminate | simpl; lia]. }
  split; [apply GenerationFacts.dedup_first_NoDup |].
  apply searchOrder_keeps_block_types.
Qed.

Lemma entries_mapOffset (f : Z * Z * Z -> Z * Z * Z) (p : list PatternBlock) :
  entries (mapOffset f p) = transformed f (entries p).
Proof.
  unfold entries, transformed, mapOffset. change (map ?g p) with (g <$> p).
  rewrite <- !list_fmap_compose. reflexivity.
Qed.

Lemma transformed_ext (f g : Z * Z * Z -> Z * Z * Z) (e : Entries) :
  (forall o, f o = g o) -> transformed f e = transformed g e.
Proof.
  intros Hfg. unfold transformed. apply list_fmap_ext. intros _ [o t] _. now rewrite Hfg.
Qed.

Lemma transformed_id (e : Entries) : transformed (fun o => o) e = e.
Proof.
  unfold transformed. induction e as [|[o t] e IH]; csimpl; [done | now rewrite IH].
Qed.

(** The ten lambdas of [rotations] are the identity and the three turns
    around each of the Y, the X and the Z axis. *)
Lemma rotationTransforms_turns :
  Forall2 (fun f g => forall o, f o = g o) rotationTransforms rotationList.
Proof.
  unfold rotationTransforms, rotationList, turns.
  repeat (apply Forall2_cons; split;
          [intros [[a b] c]; cbn; repeat f_equal; lia |]).
  apply Forall2_nil_2.
Qed.

(** The four lambdas of a [flatMap] group are the identity, the mirror
    across the X axis, the mirrors across the Y and the Z axis together,
    and the mirror across the Z axis. *)
Lemma reflectionTransforms_mirrors :
  Forall2 (fun f g => forall o, f o = g o) reflectionTransforms
          [ (fun o => o); mirrorX; (fun o => mirrorZ (mirrorY o)); mirrorZ ].
Proof.
  unfold reflectionTransforms.
  repeat (apply Forall2_cons; split;
          [intros [[a b] c]; cbn; repeat f_equal; lia |]).
  apply Forall2_nil_2.
Qed.

Lemma Forall2_elem_l {A B : Type} (P : A -> B -> Prop) (l : list A) (k : list B) (a : A) :
  Forall2 P l k -> a ∈ l -> exists b, b ∈ k /\ P a b.
Proof.
  intros Hall [i Hi]%list_elem_of_lookup.
  destruct (Forall2_lookup_l _ _ _ _ _ Hall Hi) as (b & Hb & Hab).
  exists b. split; [| done]. apply list_elem_of_lookup. eauto.
Qed.

Lemma Forall2_elem_r {A B : Type} (P : A -> B -> Prop) (l : list A) (k : list B) (b : B) :
  Forall2 P l k -> b ∈ k -> exists a, a ∈ l /\ P a b.
Proof.
  intros Hall [i Hi]%list_elem_of_lookup.
  destruct (Forall2_lookup_r _ _ _ _ _ Hall Hi) as (a & Ha & Hab).
  exists a. split; [| done]. apply list_elem_of_lookup. eauto.
Qed.

(** Every candidate built from the tables has its like, entry by entry,
    in the generator's list. *)
Lemma candidates_in_reflections (p c : list PatternBlock) :
  c ∈ candidates p -> exists c', c' ∈ reflections p /\ entries c' = entries c.
Proof.
  rewrite GenerationFacts.reflections_shape.
  pose proof (GenerationFacts.candidates_head p) as Hhead.
  destruct (candidates p) as [|c0 cs]; [discriminate |].
  injection Hhead as ->. cbn [tail]. intros [->|Hc]%elem_of_cons.
  - exists p. split; [now left |].
    now rewrite entries_mapOffset, transformed_id.
  - exists c. split; [now right | reflexivity].
Qed.

(** X2. The variants the generator returns are, entry by entry, exactly
    the pattern with its offsets moved by one of the ten turns (the
    identity and the 90, 180 and 270 degree turns around the Y, the X and
    the Z axis) followed by nothing, by the mirror across the X axis, by
    the mirrors across the Y and the Z axis together (the lambda commented
    as the reflection across the Y axis), or by the mirror across the Z
    axis.  Each is a rigid image of the pattern about the anchor: the
    distance of each entry from the anchor, and the distance between any
    two entries, are those of the pattern. *)
Theorem generateCombinations_rigid (p : list PatternBlock) :
  exists vs,
    generateCombinations p = Return vs /\
    (forall e,
       e ∈ entries <$> vs <->
       exists rot refl,
         rot ∈ rotationList /\
         refl ∈ [ (fun o => o); mirrorX; (fun o => mirrorZ (mirrorY o)); mirrorZ ] /\
         e = transformed (fun o => refl (rot o)) (entries p)) /\
    Forall (fun c =>
      forall i j bi bj qi qj,
        c !! i = Some bi -> c !! j = Some bj ->
        p !! i = Some qi -> p !! j = Some qj ->
        sqdist (offset bi) (0, 0, 0) = sqdist (offset qi) (0, 0, 0) /\
        sqdist (offset bi) (offset bj) = sqdist (offset qi) (offset qj))
      vs.
Proof.
  exists (searchOrder p).
  split; [apply GenerationFacts.generateCombinations_searchOrder |].
  split.
  - intros e. rewrite list_elem_of_fmap. split.
    + intros (c & -> & [->|Hc]%GenerationFacts.searchOrder_elem).
      * exists (fun o => o), (fun o => o).
        split; [unfold rotationList; now left |]. split; [now left |].
        now rewrite transformed_id.
      * apply candidates_elem in Hc as (rot & refl & Hrot & Hrefl & ->).
        destruct (Forall2_elem_l _ _ _ _ rotationTransforms_turns Hrot)
          as (rot' & Hrot' & Hr).
        destruct (Forall2_elem_l _ _ _ _ reflectionTransforms_mirrors Hrefl)
          as (refl' & Hrefl' & Hm).
        exists rot', refl'. split; [done |]. split; [done |].
        rewrite entries_mapOffset. apply transformed_ext. intros o.
        now rewrite Hr, Hm.
    + intros (rot' & refl' & Hrot' & Hrefl' & ->).
      destruct (Forall2_elem_r _ _ _ _ rotationTransforms_turns Hrot')
        as (rot & Hrot & Hr).
      destruct (Forall2_elem_r _ _ _ _ reflectionTransforms_mirrors Hrefl')
        as (refl & Hrefl & Hm).
      destruct (candidates_in_reflections p (mapOffset (fun o => refl (rot o)) p))
        as (c' & Hc' & Hsame).
      { apply candidates_elem. eauto 6. }
      exists c'. split.
      * fold (entries c'). rewrite Hsame, entries_mapOffset.
        apply transformed_ext. intros o. now rewrite Hr, Hm.
      * unfold searchOrder. now apply GenerationFacts.dedup_first_elem.
  - apply Forall_forall. intros c (f & [Hf Hf0] & Hall)%searchOrder_transform.
    intros i j bi bj qi qj Hi Hj Hqi Hqj.
    destruct (Forall2_lookup_lr _ _ _ _ _ _ Hall Hi Hqi) as [-> _].
    destruct (Forall2_lookup_lr _ _ _ _ _ _ Hall Hj Hqj) as [-> _].
    split; [rewrite <- Hf0 at 1 |]; apply Hf.
Qed.

End VariantTheorems.

(** ** More on matching *)
Module MatchingTheorems.
Import Host BlockMatcher MatcherSpec OffsetSpec.

Lemma length_bind_le {A B : Type} (f : A -> list B) (l : list A) (n : nat) :
  (forall a, a ∈ l -> (length (f a) <= n)%nat) ->
  (length (l ≫= f) <= length l * n)%nat.
Proof.
  induction l as [|a l IH]; intros Hf; [simpl; lia |].
  rewrite bind_cons, length_app. cbn [length].
  specialize (Hf a (list_elem_of_here _ _)) as Ha.
  specialize (IH (fun a' Ha' => Hf a' (list_elem_of_further _ _ _ Ha'))). lia.
Qed.

Lemma scanned_sublist (w : World) (anchor : Vector3 Z) (vs : list (list PatternBlock)) :
  sublist (scanned w anchor vs) vs.
Proof.
  unfold scanned. destruct (list_find _ vs) as [[i c]|]; [apply sublist_take | done].
Qed.

Lemma probed_length (w : World) (anchor : Vector3 Z) (c : list PatternBlock) :
  (length (probed w anchor c) <= length c)%nat.
Proof. unfold probed. rewrite length_take, length_fmap. lia. Qed.


(** X3. One call makes at most forty lookups per entry of the pattern,
    whatever the world and the options. *)
Theorem matchBlocks_lookup_budget (p : Pattern) (options : Options.t) (w : World) :
  exists r w',
    matchBlocks p options w = (Return r, w') /\
    (length (filter (fun e => is_mutation e = false) (calls w'))
     <= length (filter (fun e => is_mutation e = false) (calls w))
        + 40 * length (pattern p))%nat.
Proof.
  rewrite RunFacts.matchBlocks_run. cbv zeta. eexists _, _. split; [reflexivity |].
  rewrite MatcherTheorems.lookups_of_run, length_app, length_fmap.
  set (anchor := TriggerBlock.location (triggerBlock p)).
  set (vs := searchOrder (pattern p)).
  assert (Hvs : (length (scanned w anchor vs) <= 40)%nat).
  { etrans; [apply sublist_length, scanned_sublist |].
    apply GenerationFacts.searchOrder_length. }
  assert (Hlen : (length (scanned w anchor vs ≫= probed w anchor)
                  <= length (scanned w anchor vs) * length (pattern p))%nat).
  { apply length_bind_le. intros c Hc.
    apply (sublist_subseteq _ _ (scanned_sublist w anchor vs)) in Hc.
    pose proof (VariantTheorems.searchOrder_keeps_block_types (pattern p)) as Hshape.
    rewrite Forall_forall in Hshape. destruct (Hshape c Hc) as [<- _].
    apply probed_length. }
  nia.
Qed.

(** X4. The result depends on the pattern entries, the anchor location and
    the block grid only: not on [options.destroyBlocks], not on the trigger's
    block type, not on the [doTileDrops] rule, the drops or the call log. *)
Theorem matchBlocks_result_depends_on_grid_only
    (type1 type2 : string) (location : Vector3 Z) (entries : list PatternBlock)
    (options1 options2 : Options.t) (grid : gmap (Z * Z * Z) string)
    (rule1 rule2 : bool) (drops1 drops2 : list (Z * Z * Z * string))
    (log1 log2 : list Call) :
  fst (matchBlocks (mkPattern (TriggerBlock.mk type1 location) entries) options1
         (mkWorld grid rule1 drops1 log1))
  = fst (matchBlocks (mkPattern (TriggerBlock.mk type2 location) entries) options2
           (mkWorld grid rule2 drops2 log2)).
Proof. rewrite !RunFacts.matchBlocks_run. reflexivity. Qed.

(** X5. When the pattern as written stands at the anchor, the call returns
    it untransformed, ahead of any rotated or mirrored variant that may
    match as well. *)
Theorem matchBlocks_prefers_pattern_as_written
    (p : Pattern) (options : Options.t) (w : World) :
  variant_matches w (TriggerBlock.location (triggerBlock p)) (pattern p) ->
  fst (matchBlocks p options w)
  = Return (Matched (pattern p) (TriggerBlock.location (triggerBlock p))).
Proof.
  intros Hp. rewrite RunFacts.matchBlocks_run. cbv zeta. cbn [fst]. f_equal.
  pose proof (GenerationFacts.searchOrder_head (pattern p)) as Hhead.
  destruct (searchOrder (pattern p)) as [|c vs]; [discriminate |].
  injection Hhead as ->. rewrite RunFacts.first_match_cons. now rewrite decide_True.
Qed.

Lemma matchBlocks_prefers_pattern_as_written_witness :
  fst (matchBlocks (Handler.tPosePattern Handler.placedDiamond) (Options.mk false)
         Handler.standingWorld)
  = Return (Matched (pattern (Handler.tPosePattern Handler.placedDiamond))
              (TriggerBlock.location (triggerBlock (Handler.tPosePattern Handler.placedDiamond)))).
Proof.
  apply (matchBlocks_prefers_pattern_as_written
           (Handler.tPosePattern Handler.placedDiamond) (Options.mk false)
           Handler.standingWorld).
  apply (bool_decide_unpack _). vm_compute. exact I.
Defined.

(** X6. After a destroying call has matched, the variant it returned no
    longer stands at the anchor (as long as it expects some block other
    than air), so the same call on the world it left does not return that
    variant again. *)
Theorem matched_variant_is_gone_after_destroy
    (p : Pattern) (w w' : World) (c : list PatternBlock) (center : Vector3 Z) :
  matchBlocks p (Options.mk true) w = (Return (Matched c center), w') ->
  Exists (fun b => blockType b <> air) c ->
  ~ variant_matches w' center c /\
  forall options, fst (matchBlocks p options w') <> Return (Matched c center).
Proof.
  intros Hrun Hb. rewrite RunFacts.matchBlocks_run in Hrun. cbv zeta in Hrun.
  injection Hrun as Hr <-. rewrite Hr. cbn [after_match Options.destroyBlocks].
  set (w1 := destroyed center c _).
  assert (Hgone : ~ variant_matches w1 center c).
  { intros Hall. apply Exists_exists in Hb as (b & Hbc & Hne).
    unfold variant_matches in Hall. rewrite Forall_forall in Hall.
    specialize (Hall b Hbc). unfold block_matches in Hall.
    subst w1. cbn [blocks destroyed] in Hall.
    rewrite RunFacts.cleared_lookup_in in Hall; [congruence |].
    unfold removed. right. apply list_elem_of_fmap. eauto. }
  split; [exact Hgone |].
  intros options Hagain. rewrite RunFacts.matchBlocks_run in Hagain.
  cbv zeta in Hagain. cbn [fst] in Hagain. injection Hagain as Hagain.
  destruct (MatcherTheorems.first_match_cases w1
              (TriggerBlock.location (triggerBlock p)) (searchOrder (pattern p)))
    as [(i & c0 & Hr0 & _ & _ & Hc0 & _)|(Hr0 & _)]; rewrite Hr0 in Hagain;
    [| discriminate].
  injection Hagain as -> <-. done.
Qed.

Lemma matched_variant_is_gone_after_destroy_witness :
  ~ variant_matches (snd (matchBlocks TPose.tPosePattern (Options.mk true) TPose.builtWorld))
      TPose.anchor TPose.turnedVariant /\
  forall options,
    fst (matchBlocks TPose.tPosePattern options
           (snd (matchBlocks TPose.tPosePattern (Options.mk true) TPose.builtWorld)))
    <> Return (Matched TPose.turnedVariant TPose.anchor).
Proof.
  apply (matched_variant_is_gone_after_destroy
           TPose.tPosePattern TPose.builtWorld _ TPose.turnedVariant TPose.anchor).
  - vm_compute. reflexivity.
  - apply (bool_decide_unpack _). vm_compute. exact I.
Defined.




Lemma rotationTransforms_exact :
  Forall (fun f => forall o, exact_offset o -> exact_offset (f o)) rotationTransforms.
Proof.
  unfold rotationTransforms.
  repeat (apply Forall_cons; split;
          [intros [[a b] c] (Ha & Hb & Hc); unfold exact_offset, exact in *; lia |]).
  apply Forall_nil_2.
Qed.

Lemma reflectionTransforms_exact :
  Forall (fun f => forall o, exact_offset o -> exact_offset (f o)) reflectionTransforms.
Proof.
  unfold reflectionTransforms.
  repeat (apply Forall_cons; split;
          [intros [[a b] c] (Ha & Hb & Hc); unfold exact_offset, exact in *; lia |]).
  apply Forall_nil_2.
Qed.

(** The variants of a pattern with exact offsets have exact offsets. *)
Lemma searchOrder_exact (p c : list PatternBlock) :
  exact_offsets p -> c ∈ searchOrder p -> exact_offsets c.
Proof.
  intros Hp [->|Hc]%GenerationFacts.searchOrder_elem; [exact Hp |].
  apply VariantTheorems.candidates_elem in Hc as (rot & refl & Hrot & Hrefl & ->).
  pose proof rotationTransforms_exact as Hr. rewrite Forall_forall in Hr.
  pose proof reflectionTransforms_exact as Hm. rewrite Forall_forall in Hm.
  unfold exact_offsets, mapOffset in *. change (map ?g p) with (g <$> p).
  apply Forall_fmap. eapply Forall_impl; [exact Hp |].
  intros q Hq. cbn. apply (Hm refl Hrefl), (Hr rot Hrot), Hq.
Qed.






Lemma searchOrder_written (p c : list PatternBlock) :
  c ∈ searchOrder p -> c = p \/ written_offset_first c.
Proof.
  intros [->|Hc]%GenerationFacts.searchOrder_elem; [now left | right].
  apply VariantTheorems.candidates_elem in Hc as (rot & refl & _ & _ & ->).
  apply GenerationFacts.mapOffset_written.
Qed.

(** X8. The string-keyed [Set] drops exactly the later repeats.  For a
    pattern whose offsets are integers of at most [2 ^ 52] in magnitude,
    every candidate has such offsets, two candidates have one text exactly
    when they are equal entry by entry with properties in the same order,
    and what the generator returns is its candidate list without its later
    repeats: no two variants are the same, every candidate is among them,
    they come in generation order, the first is the caller's own array,
    and every other is written offset first. *)
Theorem generateCombinations_drops_exact_repeats (p : list PatternBlock) :
  exact_offsets p ->
  exists vs,
    generateCombinations p = Return vs /\
    Forall exact_offsets (reflections p) /\
    (forall c c', c ∈ reflections p -> c' ∈ reflections p ->
       (JSON.stringify c = JSON.stringify c' <-> c = c')) /\
    NoDup vs /\
    (forall c, c ∈ vs <-> c ∈ reflections p) /\
    sublist vs (reflections p) /\
    head vs = Some p /\
    Forall (fun c => c = p \/ written_offset_first c) vs.
Proof.
  intros Hp. exists (searchOrder p).
  split; [apply GenerationFacts.generateCombinations_searchOrder |].
  split.
  { apply Forall_forall. intros c Hc. apply (searchOrder_exact p c Hp).
    now apply GenerationFacts.dedup_first_elem. }
  split.
  { intros c c' _ _. split; [apply JSONFacts.stringify_inj | now intros ->]. }
  split; [apply GenerationFacts.dedup_first_NoDup |].
  split; [intros c; apply GenerationFacts.dedup_first_elem |].
  split; [apply GenerationFacts.dedup_first_sublist |].
  split; [apply GenerationFacts.searchOrder_head |].
  apply Forall_forall. intros c Hc. now apply searchOrder_written.
Qed.

Lemma generateCombinations_drops_exact_repeats_witness :
  exists vs,
    generateCombinations Handler.tPoseBlocks = Return vs /\
    Forall exact_offsets (reflections Handler.tPoseBlocks) /\
    (forall c c', c ∈ reflections Handler.tPoseBlocks ->
       c' ∈ reflections Handler.tPoseBlocks ->
       (JSON.stringify c = JSON.stringify c' <-> c = c')) /\
    NoDup vs /\
    (forall c, c ∈ vs <-> c ∈ reflections Handler.tPoseBlocks) /\
    sublist vs (reflections Handler.tPoseBlocks) /\
    head vs = Some Handler.tPoseBlocks /\
    Forall (fun c => c = Handler.tPoseBlocks \/ written_offset_first c) vs.
Proof.
  apply (generateCombinations_drops_exact_repeats Handler.tPoseBlocks).
  apply (bool_decide_unpack _). vm_compute. exact I.
Defined.

End MatchingTheorems.

(** ** The event handler *)
Module HandlerTheorems.
Import Host BlockMatcher MatcherSpec OffsetSpec Handler.

Lemma location_eta (l : Vector3 Z) : mkVector3 (x l) (y l) (z l) = l.
Proof. now destruct l. Qed.

(** Every variant of the figure is one of the recognised poses, as a set
    of blocks, and every recognised pose is a variant. *)
Lemma variants_are_poses :
  Forall (fun c => Exists (fun pose => Forall (fun b => b ∈ c) (pose_blocks pose)
                                       /\ Forall (fun b => b ∈ pose_blocks pose) c)
                          recognisedPoses)
         (variants tPoseBlocks).
Proof. apply (bool_decide_unpack _). vm_compute. exact I. Qed.

Lemma poses_are_variants :
  Forall (fun pose => Exists (fun c => Forall (fun b => b ∈ c) (pose_blocks pose)
                                       /\ Forall (fun b => b ∈ pose_blocks pose) c)
                             (variants tPoseBlocks))
         recognisedPoses.
Proof. apply (bool_decide_unpack _). vm_compute. exact I. Qed.

Lemma pose_blocks_match (w : World) (l : Vector3 Z) (pose : (Z * Z * Z) * (Z * Z * Z)) :
  variant_matches w l (pose_blocks pose) <-> pose_stands (blocks w) l pose.
Proof.
  unfold variant_matches, pose_stands, pose_blocks. rewrite Forall_fmap.
  apply Forall_iff. intros [[a b] c]. reflexivity.
Qed.

Lemma same_blocks_match (w : World) (l : Vector3 Z) (c1 c2 : list PatternBlock) :
  Forall (fun b => b ∈ c1) c2 -> variant_matches w l c1 -> variant_matches w l c2.
Proof.
  unfold variant_matches. rewrite !Forall_forall. intros Hsub H1 b Hb. auto.
Qed.

Lemma some_variant_iff_some_pose (w : World) (l : Vector3 Z) :
  Exists (variant_matches w l) (variants tPoseBlocks)
  <-> Exists (pose_stands (blocks w) l) recognisedPoses.
Proof.
  rewrite !Exists_exists. split.
  - intros (c & Hc & Hm).
    pose proof variants_are_poses as H. rewrite Forall_forall in H.
    apply H, Exists_exists in Hc as (pose & Hpose & H1 & H2).
    exists pose. split; [done |]. apply pose_blocks_match.
    now apply (same_blocks_match w l c).
  - intros (pose & Hpose & Hm).
    pose proof poses_are_variants as H. rewrite Forall_forall in H.
    apply H, Exists_exists in Hpose as (c & Hc & H1 & H2).
    exists c. split; [done |].
    apply (same_blocks_match w l (pose_blocks pose)); [done |].
    now apply pose_blocks_match.
Qed.

Lemma first_match_Exists (w : World) (anchor : Vector3 Z) (vs : list (list PatternBlock)) :
  (exists c, first_match w anchor vs = Matched c anchor /\ c ∈ vs
             /\ variant_matches w anchor c /\ Exists (variant_matches w anchor) vs)
  \/ (first_match w anchor vs = NoMatch /\ ~ Exists (variant_matches w anchor) vs).
Proof.
  destruct (MatcherTheorems.first_match_cases w anchor vs)
    as [(i & c & Hr & _ & Hi & Hc & _)|(Hr & _ & Hnone)].
  - left. exists c. apply list_elem_of_lookup_2 in Hi.
    repeat split; try done. apply Exists_exists. eauto.
  - right. split; [done |]. rewrite Exists_exists. intros (c & Hc & Hm).
    now apply (Hnone c).
Qed.

Lemma onPlayerPlaceBlock_run (b : PlacedBlock) (w : World) :
  typeId b = "minecraft:diamond_block" ->
  onPlayerPlaceBlock b w
  = (Return match first_match w (location b) (variants tPoseBlocks) with
            | Matched _ center => [SpawnEntity "minecraft:cow" center]
            | NoMatch => [ConsoleWarn "Pattern not matched"]
            end,
     after_match true (first_match w (location b) (variants tPoseBlocks))
       (logged (GetBlock <$> (scanned w (location b) (variants tPoseBlocks)
                                ≫= probed w (location b))) w)).
Proof.
  intros Hb. unfold onPlayerPlaceBlock. rewrite bool_decide_eq_true_2 by exact Hb.
  unfold mbind, M_bind.
  rewrite RunFacts.matchBlocks_run. cbv zeta.
  cbn [tPosePattern triggerBlock pattern TriggerBlock.location Options.destroyBlocks].
  rewrite location_eta, (GenerationFacts.searchOrder_variants tPoseBlocks)
    by (apply (bool_decide_unpack _); vm_compute; exact I).
  now destruct (first_match w (location b) (variants tPoseBlocks)).
Qed.

(** The handler on a diamond block, in both of its outcomes. *)
Lemma onPlayerPlaceBlock_diamond (b : PlacedBlock) (w : World) :
  typeId b = "minecraft:diamond_block" ->
  (exists c,
     c ∈ variants tPoseBlocks /\ variant_matches w (location b) c /\
     Exists (variant_matches w (location b)) (variants tPoseBlocks) /\
     exists lookups,
       onPlayerPlaceBlock b w
       = (Return [SpawnEntity "minecraft:cow" (location b)],
          destroyed (location b) c (logged (GetBlock <$> lookups) w)))
  \/ (~ Exists (variant_matches w (location b)) (variants tPoseBlocks) /\
      exists lookups,
        onPlayerPlaceBlock b w
        = (Return [ConsoleWarn "Pattern not matched"], logged (GetBlock <$> lookups) w)).
Proof.
  intros Hb. rewrite (onPlayerPlaceBlock_run b w Hb).
  destruct (first_match_Exists w (location b) (variants tPoseBlocks))
    as [(c & Hr & Hc & Hm & Hex)|(Hr & Hnone)]; rewrite Hr; cbn [after_match].
  - left. exists c. split; [exact Hc |]. split; [exact Hm |]. split; [exact Hex |].
    exists (scanned w (location b) (variants tPoseBlocks) ≫= probed w (location b)).
    reflexivity.
  - right. split; [exact Hnone |].
    exists (scanned w (location b) (variants tPoseBlocks) ≫= probed w (location b)).
    reflexivity.
Qed.

(** X9. The handler does nothing for a block that is not a diamond block.
    For a diamond block it requests exactly one effect: a cow at the block's
    location when some variant of the figure stands there, in which case
    the diamond and the four blocks of that variant are cleared to air, no
    item is dropped and [doTileDrops] is left on; otherwise the warning,
    with the grid, the rule and the drops untouched. *)
Theorem onPlayerPlaceBlock_outcome (b : PlacedBlock) (w : World) :
  (typeId b <> "minecraft:diamond_block" -> onPlayerPlaceBlock b w = (Return [], w)) /\
  (typeId b = "minecraft:diamond_block" ->
   exists w',
     (onPlayerPlaceBlock b w = (Return [SpawnEntity "minecraft:cow" (location b)], w') /\
      exists c, c ∈ variants tPoseBlocks /\ variant_matches w (location b) c /\
        blocks w' = cleared (location b :: (offsetLocation (location b) <$> c)) (blocks w) /\
        doTileDrops w' = true /\ drops w' = drops w)
     \/
     (onPlayerPlaceBlock b w = (Return [ConsoleWarn "Pattern not matched"], w') /\
      (forall c, c ∈ variants tPoseBlocks -> ~ variant_matches w (location b) c) /\
      blocks w' = blocks w /\ doTileDrops w' = doTileDrops w /\ drops w' = drops w)).
Proof.
  split.
  - intros Hb. unfold onPlayerPlaceBlock. now rewrite bool_decide_eq_false_2.
  - intros Hb.
    destruct (onPlayerPlaceBlock_diamond b w Hb)
      as [(c & Hc & Hm & _ & lookups & ->)|(Hnone & lookups & ->)].
    + eexists. left. split; [reflexivity |]. exists c. repeat split; done.
    + eexists. right. split; [reflexivity |]. split; [| repeat split; done].
      intros c Hc Hm. apply Hnone, Exists_exists. eauto.
Qed.

(** X10. On a diamond block the cow is spawned exactly when iron blocks
    stand around the block in one of eight orientations of the T-shaped
    figure: upright or upside down with the arms along X or along Z,
    lying along Z with the arms vertical, or lying along X with the arms
    along Z.  The four remaining axis-aligned orientations (lying along Z
    with the arms along X, lying along X with the arms vertical) are not
    among the variants generated and only draw the warning. *)
Theorem onPlayerPlaceBlock_recognised_poses (b : PlacedBlock) (w : World) :
  typeId b = "minecraft:diamond_block" ->
  (fst (onPlayerPlaceBlock b w) = Return [SpawnEntity "minecraft:cow" (location b)]
   <-> Exists (pose_stands (blocks w) (location b)) recognisedPoses) /\
  (fst (onPlayerPlaceBlock b w) = Return [ConsoleWarn "Pattern not matched"]
   <-> ~ Exists (pose_stands (blocks w) (location b)) recognisedPoses).
Proof.
  intros Hb. rewrite <- some_variant_iff_some_pose.
  destruct (onPlayerPlaceBlock_diamond b w Hb)
    as [(c & Hc & Hm & Hex & lookups & ->)|(Hnone & lookups & ->)]; cbn [fst].
  - split; split; done.
  - split; split; done.
Qed.

Lemma onPlayerPlaceBlock_recognised_poses_witness :
  (fst (onPlayerPlaceBlock placedDiamond standingWorld)
   = Return [SpawnEntity "minecraft:cow" (location placedDiamond)]
   <-> Exists (pose_stands (blocks standingWorld) (location placedDiamond)) recognisedPoses) /\
  (fst (onPlayerPlaceBlock placedDiamond standingWorld)
   = Return [ConsoleWarn "Pattern not matched"]
   <-> ~ Exists (pose_stands (blocks standingWorld) (location placedDiamond)) recognisedPoses).
Proof.
  apply (onPlayerPlaceBlock_recognised_poses placedDiamond standingWorld).
  reflexivity.
Defined.

(** The figure lying along X with its arms up and down is one of the
    orientations left out: the handler warns. *)
Example lying_figure_draws_the_warning :
  fst (onPlayerPlaceBlock placedDiamond lyingWorld)
  = Return [ConsoleWarn "Pattern not matched"].
Proof. vm_compute. reflexivity. Qed.

End HandlerTheorems.

(** ** More on the [Vector3] arithmetic *)
Module ArithmeticTheorems.
Import Number Vec3 Vector3New.

Lemma strict_eq_sym (a b : number) : strict_eq a b = strict_eq b a.
Proof.
  unfold strict_eq, SFeqb, SFcompare.
  destruct a as [sa|sa| |sa ma ea], b as [sb|sb| |sb mb eb];
    try reflexivity; try (destruct sa, sb; reflexivity).
  change (Pos.compare_cont Eq ma mb) with (ma ?= mb)%positive.
  change (Pos.compare_cont Eq mb ma) with (mb ?= ma)%positive.
  rewrite (Z.compare_antisym ea eb), (Pos.compare_antisym ma mb).
  destruct sa, sb, (ea ?= eb), (ma ?= mb)%positive; reflexivity.
Qed.

Lemma strict_eq_same_value (a b : number) :
  strict_eq a b = true <-> same_value a b.
Proof.
  unfold same_value, is_zero, strict_eq, SFeqb, SFcompare. split.
  - destruct a as [sa|sa| |sa ma ea], b as [sb|sb| |sb mb eb];
      try discriminate; try (destruct sa; discriminate);
      try (destruct sb; discriminate).
    + intros _. left. eauto.
    + destruct sa, sb; try discriminate; intros _; right; split; congruence.
    + change (Pos.compare_cont Eq ma mb) with (ma ?= mb)%positive.
      destruct sa, sb; try discriminate;
        destruct (ea ?= eb) eqn:He; try discriminate;
        destruct (ma ?= mb)%positive eqn:Hm; try discriminate;
        apply Z.compare_eq in He; apply Pos.compare_eq in Hm; subst;
        intros _; right; split; congruence.
  - intros [[[sa ->] [sb ->]]|[<- Hnan]]; [reflexivity |].
    destruct a as [sa|sa| |sa ma ea]; [reflexivity | now destruct sa | done |].
    change (Pos.compare_cont Eq ma ma) with (ma ?= ma)%positive.
    rewrite Z.compare_refl, Pos.compare_refl. now destruct sa.
Qed.

(** X11. [equals] is symmetric; it holds exactly when each pair of
    components is the same value, where the two zeros count as the same
    and NaN is not the same as anything; so a vector equals itself exactly
    when none of its components is NaN. *)
Theorem equals_characterised (a b : Vector3 number) :
  equals a b = equals b a /\
  (equals a b = true <->
   same_value (x a) (x b) /\ same_value (y a) (y b) /\ same_value (z a) (z b)) /\
  (equals a a = true <->
   x a <> S754_nan /\ y a <> S754_nan /\ z a <> S754_nan).
Proof.
  assert (Hchar : forall u v : Vector3 number,
    equals u v = true <->
    same_value (x u) (x v) /\ same_value (y u) (y v) /\ same_value (z u) (z v)).
  { intros u v. unfold equals. rewrite !andb_true_iff, !strict_eq_same_value. tauto. }
  assert (Hself : forall c : number, same_value c c <-> c <> S754_nan).
  { intros c. unfold same_value, is_zero. split.
    - intros [[[s ->] _]|[_ H]]; [discriminate | exact H].
    - intros H. right. split; [reflexivity | exact H]. }
  split; [| split; [apply Hchar |]].
  - unfold equals.
    now rewrite (strict_eq_sym (x a)), (strict_eq_sym (y a)), (strict_eq_sym (z a)).
  - rewrite Hchar, !Hself. reflexivity.
Qed.

Lemma add_comm (a b : number) : Number.add a b = Number.add b a.
Proof.
  unfold Number.add.
  destruct a as [sa|sa| |sa ma ea], b as [sb|sb| |sb mb eb];
    try reflexivity; try (destruct sa, sb; reflexivity).
  cbn [SFadd]. now rewrite Z.min_comm, Z.add_comm.
Qed.

Lemma mul_comm (a b : number) : Number.mul a b = Number.mul b a.
Proof.
  unfold Number.mul.
  destruct a as [sa|sa| |sa ma ea], b as [sb|sb| |sb mb eb];
    cbn [SFmul]; try reflexivity; try (now rewrite xorb_comm).
  now rewrite xorb_comm, Pos.mul_comm, Z.add_comm.
Qed.

(** X12. Vector addition and the dot product do not depend on the order of
    their operands, bit for bit. *)
Theorem add_and_dot_commute (a b : Vector3 number) :
  Vec3.add a b = Vec3.add b a /\ dot a b = dot b a.
Proof.
  split.
  - unfold Vec3.add.
    now rewrite (add_comm (x a)), (add_comm (y a)), (add_comm (z a)).
  - unfold dot.
    now rewrite (mul_comm (x a)), (mul_comm (y a)), (mul_comm (z a)).
Qed.

(** The square of a rounded value does not depend on the sign it was
    rounded with. *)
Lemma square_binary_round_aux (s : bool) (m e : Z) (l : location) :
  square (binary_round_aux prec emax s m e l)
  = square (binary_round_aux prec emax false m e l).
Proof.
  unfold binary_round_aux.
  destruct (shr_fexp prec emax m e l) as [mrs' e'].
  destruct (shr_fexp prec emax _ e' loc_Exact) as [mrs'' e''].
  destruct (shr_m mrs'') as [|p|p]; [now destruct s | | reflexivity].
  destruct (e'' <=? emax - prec); now destruct s.
Qed.

Lemma square_binary_normalize_opp (m e : Z) :
  square (binary_normalize prec emax (- m) e false)
  = square (binary_normalize prec emax m e false).
Proof.
  destruct m as [|p|p]; [reflexivity | |].
  - change (- Zpos p) with (Zneg p). unfold binary_normalize, binary_round.
    destruct (shl_align p e _) as [mz ez]. apply square_binary_round_aux.
  - change (- Zneg p) with (Zpos p). unfold binary_normalize, binary_round.
    destruct (shl_align p e _) as [mz ez]. symmetry. apply square_binary_round_aux.
Qed.

Lemma square_sub_swap_finite (sa sb : bool) (ma mb : positive) (ea eb : Z) :
  square (Number.sub (S754_finite sa ma ea) (S754_finite sb mb eb))
  = square (Number.sub (S754_finite sb mb eb) (S754_finite sa ma ea)).
Proof.
  unfold Number.sub. cbn [SFsub]. rewrite (Z.min_comm eb ea).
  rewrite <- square_binary_normalize_opp. do 2 f_equal. lia.
Qed.

Lemma square_sub_swap (a b : number) :
  square (Number.sub a b) = square (Number.sub b a).
Proof.
  destruct a as [sa|sa| |sa ma ea], b as [sb|sb| |sb mb eb];
    try apply square_sub_swap_finite;
    try (destruct sa); try (destruct sb); reflexivity.
Qed.

Lemma distance_swap (a b : Vector3 number) : distance a b = distance b a.
Proof.
  unfold distance.
  now rewrite (square_sub_swap (x a)), (square_sub_swap (y a)), (square_sub_swap (z a)).
Qed.

(** X13. [distance] is symmetric, bit for bit: the squared differences do
    not depend on the order of the operands, whatever their signs, and
    also when a difference is infinite or NaN. *)
Theorem distance_symmetric (a b : Vector3 number) :
  distance a b = distance b a /\
  square (Number.sub (x a) (x b)) = square (Number.sub (x b) (x a)) /\
  square (Number.sub (y a) (y b)) = square (Number.sub (y b) (y a)) /\
  square (Number.sub (z a) (z b)) = square (Number.sub (z b) (z a)).
Proof.
  split; [apply distance_swap |]. repeat split; apply square_sub_swap.
Qed.

Lemma sqrt_squarish_not_negative (a : number) :
  squarish a -> not_negative (Number.sqrt a).
Proof.
  destruct a as [sa|sa| |sa m e]; cbn [squarish]; intros Ha; subst; try done.
  destruct Ha as [-> _]. unfold Number.sqrt. cbn [SFsqrt].
  destruct (SFsqrt_core_binary prec emax (Zpos m) e) as [[mz ez] lz].
  pose proof (NumberFacts.binary_round_aux_shape false mz ez lz) as H.
  destruct (binary_round_aux prec emax false mz ez lz); cbn [not_negative]; tauto.
Qed.

(** X14. [magnitude] and [distance] never return a negative number or the
    negative zero: the result is NaN or has a clear sign bit. *)
Theorem magnitude_and_distance_not_negative (a b : Vector3 number) :
  not_negative (magnitude a) /\ not_negative (distance a b).
Proof.
  split; apply sqrt_squarish_not_negative;
    repeat apply NumberFacts.add_squarish; apply NumberFacts.square_squarish.
Qed.

Lemma sub_zero (a : number) : Number.sub a zero = a.
Proof. destruct a as [[]|[]| |sa m e]; reflexivity. Qed.

(** X15. The distance of a vector from the default-constructed vector
    [new Vector3()], in either order, is its magnitude. *)
Theorem distance_from_origin_is_magnitude (v : Vector3 number) :
  distance v (constructor None None None) = magnitude v /\
  distance (constructor None None None) v = magnitude v.
Proof.
  assert (H : distance v (constructor None None None) = magnitude v).
  { unfold distance, magnitude, constructor. cbn [default x y z].
    now rewrite !sub_zero. }
  split; [exact H |]. now rewrite distance_swap.
Qed.

Lemma sub_self (a : number) : finite a -> Number.sub a a = zero.
Proof.
  destruct a as [[]|sa| |sa m e]; cbn [finite]; try done.
  intros _. unfold Number.sub. cbn [SFsub]. now rewrite Z.sub_diag.
Qed.

Lemma sub_self_nan (a : number) : ~ finite a -> Number.sub a a = S754_nan.
Proof.
  destruct a as [sa|[]| |sa m e]; cbn [finite]; intros H; try reflexivity;
    exfalso; apply H; exact I.
Qed.

(** X16. A vector is at distance [+0] from itself, and [subtract(v, v)] is
    the zero vector, when its components are finite; with an infinite or
    NaN component the distance from itself is NaN. *)
Theorem distance_from_itself (v : Vector3 number) :
  (finite (x v) /\ finite (y v) /\ finite (z v) ->
   subtract v v = mkVector3 zero zero zero /\ distance v v = zero) /\
  (~ (finite (x v) /\ finite (y v) /\ finite (z v)) -> distance v v = S754_nan).
Proof.
  split.
  - intros (Hx & Hy & Hz). unfold subtract, distance.
    rewrite !sub_self by done. split; reflexivity.
  - intros Hnot. unfold distance.
    assert (Hdec : forall c : number, finite c \/ ~ finite c).
    { intros [s|s| |s m e]; cbn [finite];
        [left; exact I | right; intros [] | right; intros [] | left; exact I]. }
    destruct (Hdec (x v)) as [Hx|Hx];
      [rewrite (sub_self _ Hx) | now rewrite (sub_self_nan _ Hx)].
    destruct (Hdec (y v)) as [Hy|Hy];
      [rewrite (sub_self _ Hy) | now rewrite (sub_self_nan _ Hy)].
    destruct (Hdec (z v)) as [Hz|Hz];
      [| now rewrite (sub_self_nan _ Hz)].
    exfalso. apply Hnot. auto.
Qed.

End ArithmeticTheorems.
